(** * Linux text edit monitor (resources/linux-text-monitor.py)

    A shallow embedding of the AT-SPI watcher script: the focus search over
    the accessibility tree, the output encoder, the change handler and the
    run loop with its three ways of stopping, followed by the properties of
    the protocol it speaks on standard output. *)

From Stdlib Require Import ZArith List Bool Lia String Ascii Eqdep_dec.
Import ListNotations.
Local Open Scope Z_scope.

(** ** Python text

    A [str] is a sequence of code points.  The texts of this program come out
    of AT-SPI as UTF-8 and are decoded by the binding, so every character is
    a Unicode scalar value (no lone surrogate); the type records it, and
    [encode("utf-8")] is total on it. *)

Definition is_scalar (c : Z) : bool :=
  ((0 <=? c) && (c <? 0xD800)) || ((0xE000 <=? c) && (c <=? 0x10FFFF)).

Record uchar : Type := UChar { code : Z; code_scalar : is_scalar code = true }.

Definition pystr : Type := list uchar.

(** [chr n]; a number that is no scalar value gives U+FFFD. *)
Definition chr (n : Z) : uchar :=
  match is_scalar n as b return is_scalar n = b -> uchar with
  | true => fun H => UChar n H
  | false => fun _ => UChar 0xFFFD eq_refl
  end eq_refl.

Definition ord (c : uchar) : Z := code c.

(** A literal of the script. *)
Definition lit (s : string) : pystr :=
  map (fun a => chr (Z.of_N (N_of_ascii a))) (list_ascii_of_string s).

Definition uchar_eqb (a b : uchar) : bool := code a =? code b.

Fixpoint pystr_eqb (s t : pystr) : bool :=
  match s, t with
  | [], [] => true
  | a :: s', b :: t' => uchar_eqb a b && pystr_eqb s' t'
  | _, _ => false
  end.

(** [c in s] for a one-character [c]. *)
Definition contains_char (c : uchar) (s : pystr) : bool := existsb (uchar_eqb c) s.

Definition LF : uchar := chr 10.
Definition CR : uchar := chr 13.

(** [s[:n]] and [s[i:j]] for offsets that are not negative. *)
Definition slice_to (n : Z) (s : pystr) : pystr := firstn (Z.to_nat n) s.
Definition slice (i j : Z) (s : pystr) : pystr :=
  firstn (Z.to_nat (j - i)) (skipn (Z.to_nat i) s).
Definition len (s : pystr) : Z := Z.of_nat (List.length s).

(** ** UTF-8 and base64, as the standard library computes them *)

Definition bytes : Type := list Z.

Definition utf8_char (c : uchar) : bytes :=
  let n := code c in
  if n <? 0x80 then [n]
  else if n <? 0x800 then
    [Z.lor 0xC0 (Z.shiftr n 6); Z.lor 0x80 (Z.land n 0x3F)]
  else if n <? 0x10000 then
    [Z.lor 0xE0 (Z.shiftr n 12);
     Z.lor 0x80 (Z.land (Z.shiftr n 6) 0x3F);
     Z.lor 0x80 (Z.land n 0x3F)]
  else
    [Z.lor 0xF0 (Z.shiftr n 18);
     Z.lor 0x80 (Z.land (Z.shiftr n 12) 0x3F);
     Z.lor 0x80 (Z.land (Z.shiftr n 6) 0x3F);
     Z.lor 0x80 (Z.land n 0x3F)].

(** [s.encode("utf-8")] *)
Definition utf8_encode (s : pystr) : bytes := flat_map utf8_char s.

Definition b64_alphabet : list ascii :=
  list_ascii_of_string
    "ABCDEFGHIJKLMNOPQRSTUVWXYZabcdefghijklmnopqrstuvwxyz0123456789+/".

Definition b64_digit (i : Z) : Z :=
  Z.of_N (N_of_ascii (nth (Z.to_nat i) b64_alphabet "="%char)).

Definition b64_pad : Z := 61.

(** [base64.b64encode]: three bytes become four digits, the last group is
    padded with [=]. *)
Fixpoint b64encode (bs : bytes) : bytes :=
  match bs with
  | [] => []
  | [a] =>
      [b64_digit (Z.shiftr a 2);
       b64_digit (Z.shiftl (Z.land a 3) 4);
       b64_pad; b64_pad]
  | [a; b] =>
      [b64_digit (Z.shiftr a 2);
       b64_digit (Z.lor (Z.shiftl (Z.land a 3) 4) (Z.shiftr b 4));
       b64_digit (Z.shiftl (Z.land b 15) 2);
       b64_pad]
  | a :: b :: c :: rest =>
      b64_digit (Z.shiftr a 2)
      :: b64_digit (Z.lor (Z.shiftl (Z.land a 3) 4) (Z.shiftr b 4))
      :: b64_digit (Z.lor (Z.shiftl (Z.land b 15) 2) (Z.shiftr c 6))
      :: b64_digit (Z.land c 63)
      :: b64encode rest
  end.

(** [bs.decode("ascii")] on bytes below 128. *)
Definition ascii_decode (bs : bytes) : pystr := map chr bs.

Definition TIMEOUT_SECONDS : Z := 30.
Definition MAX_OUTPUT_CHARS : Z := 10240.


(** ** The accessibility tree

    What a call into AT-SPI gives back: a value, or a raised exception (a
    destroyed node, a stale reference, a refused permission). *)

Inductive outcome (A : Type) : Type :=
| Ok (a : A)
| Raise.
Arguments Ok {A} a.
Arguments Raise {A}.

Notation "x <~ m ;; k" :=
  (match m with Ok x => k | Raise => Raise end)
  (at level 61, m at next level, right associativity).

(** [try: body / except Exception: handler] on a call that keeps no state. *)
Definition try_outcome {A : Type} (body : outcome A) (handler : A) : A :=
  match body with Ok a => a | Raise => handler end.

Inductive StateType : Type :=
| ACTIVE | EDITABLE | ENABLED | FOCUSABLE | FOCUSED | SENSITIVE | SHOWING | VISIBLE.

Definition StateType_eqb (a b : StateType) : bool :=
  match a, b with
  | ACTIVE, ACTIVE | EDITABLE, EDITABLE | ENABLED, ENABLED
  | FOCUSABLE, FOCUSABLE | FOCUSED, FOCUSED | SENSITIVE, SENSITIVE
  | SHOWING, SHOWING | VISIBLE, VISIBLE => true
  | _, _ => false
  end.

Definition StateSet : Type := list StateType.

(** [state_set.contains(t)] *)
Definition contains (ss : StateSet) (t : StateType) : bool :=
  existsb (StateType_eqb t) ss.

(** The text interface of an element: its text, and whether the two calls
    the script makes on it raise. *)
Record TextIface : Type := {
  text : pystr;
  count_raises : bool;
  read_raises : bool
}.

Definition get_character_count (ti : TextIface) : outcome Z :=
  if count_raises ti then Raise else Ok (len (text ti)).

Definition get_text (ti : TextIface) (start_offset end_offset : Z) : outcome pystr :=
  if read_raises ti then Raise else Ok (slice start_offset end_offset (text ti)).

(** An element: a name to tell elements apart, its state set, its children
    and its text interface, each behind a call that may raise.
    [get_child_count] is the length of the child list; [get_child_at_index]
    gives a child, [None], or raises. *)
#[local] Unset Elimination Schemes.
Inductive Accessible : Type :=
  Element (name : Z)
          (state_set : outcome StateSet)
          (children : outcome (list (outcome (option Accessible))))
          (text_iface : outcome (option TextIface)).
#[local] Set Elimination Schemes.

Definition Slot : Type := outcome (option Accessible).

Definition get_name (a : Accessible) : Z :=
  match a with Element n _ _ _ => n end.
Definition get_state_set (a : Accessible) : outcome StateSet :=
  match a with Element _ s _ _ => s end.
Definition get_children (a : Accessible) : outcome (list Slot) :=
  match a with Element _ _ c _ => c end.
Definition get_text_iface (a : Accessible) : outcome (option TextIface) :=
  match a with Element _ _ _ t => t end.

(** ** Focus search ([_find_focused], lines 40-55)

    The function calls itself once for each level of the tree, and the
    interpreter allows only so many nested calls: [frames] is the number of
    calls that may still be nested below the running one.  With none left,
    the call raises RecursionError, an [Exception], in the frame that makes
    it, where the [try] of that frame catches it like any other. *)

Definition nested_call {A : Type} (frames : nat) (f : nat -> A) : outcome A :=
  match frames with
  | O => Raise
  | S deeper => Ok (f deeper)
  end.

Fixpoint _find_focused (frames : nat) (accessible : Accessible) {struct accessible}
  : option Accessible :=
  try_outcome
    (state_set <~ get_state_set accessible ;;
     if contains state_set FOCUSED then Ok (Some accessible)
     else
       slots <~ get_children accessible ;;
       (fix for_children (slots : list Slot) : outcome (option Accessible) :=
          match slots with
          | [] => Ok None
          | slot :: rest =>
              child <~ slot ;;
              match child with
              | None => for_children rest
              | Some c =>
                  result <~ nested_call frames (fun deeper => _find_focused deeper c) ;;
                  match result with
                  | Some result => Ok (Some result)
                  | None => for_children rest
                  end
              end
          end) slots)
    None.

(** The loop over the children (lines 46-52), under its own name. *)
Definition for_children (frames : nat) : list Slot -> outcome (option Accessible) :=
  fix for_children (slots : list Slot) : outcome (option Accessible) :=
    match slots with
    | [] => Ok None
    | slot :: rest =>
        child <~ slot ;;
        match child with
        | None => for_children rest
        | Some c =>
            result <~ nested_call frames (fun deeper => _find_focused deeper c) ;;
            match result with
            | Some result => Ok (Some result)
            | None => for_children rest
            end
        end
    end.

(** The loop over the applications of the desktop ([main], lines 85-94):
    here the [try] is inside the loop, so a raising slot, or a call that
    raises, is passed over. *)
Fixpoint for_apps (frames : nat) (slots : list Slot) : option Accessible :=
  match slots with
  | [] => None
  | slot :: rest =>
      match slot with
      | Raise => for_apps frames rest
      | Ok None => for_apps frames rest
      | Ok (Some app) =>
          match nested_call frames (fun deeper => _find_focused deeper app) with
          | Ok (Some focused) => Some focused
          | Ok None => for_apps frames rest
          | Raise => for_apps frames rest
          end
      end
  end.

(** ** The process: output, exceptions and exit

    A computation of the script runs on a state, prints lines, and either
    returns, leaves with a raised exception, or is still waiting in the run
    loop. [SystemExit] and [KeyboardInterrupt] are not [Exception]s:
    [except Exception] lets them through. *)

Inductive exn : Type :=
| Exception
| KeyboardInterrupt
| SystemExit (status : Z).

Inductive Res (S A : Type) : Type :=
| Returned (a : A) (s : S) (out : list pystr)
| Raised (e : exn) (s : S) (out : list pystr)
| Waiting (s : S) (out : list pystr).
Arguments Returned {S A} a s out.
Arguments Raised {S A} e s out.
Arguments Waiting {S A} s out.

Definition Py (S A : Type) : Type := S -> Res S A.

Definition printed {S A : Type} (r : Res S A) : list pystr :=
  match r with
  | Returned _ _ o | Raised _ _ o | Waiting _ o => o
  end.

Definition state_of {S A : Type} (r : Res S A) : S :=
  match r with
  | Returned _ s _ | Raised _ s _ | Waiting s _ => s
  end.

Definition after {S A : Type} (o : list pystr) (r : Res S A) : Res S A :=
  match r with
  | Returned a s o' => Returned a s (o ++ o')
  | Raised e s o' => Raised e s (o ++ o')
  | Waiting s o' => Waiting s (o ++ o')
  end.

Definition ret {S A : Type} (a : A) : Py S A := fun s => Returned a s [].

Definition bind {S A B : Type} (m : Py S A) (k : A -> Py S B) : Py S B :=
  fun s =>
    match m s with
    | Returned a s' o => after o (k a s')
    | Raised e s' o => Raised e s' o
    | Waiting s' o => Waiting s' o
    end.

Notation "x <- m ;; k" := (bind m (fun x => k))
  (at level 61, m at next level, right associativity).
Notation "m ;; k" := (bind m (fun _ => k))
  (at level 61, right associativity).

Definition raise {S A : Type} (e : exn) : Py S A := fun s => Raised e s [].
Definition sys_exit {S A : Type} (status : Z) : Py S A := raise (SystemExit status).
Definition wait {S A : Type} : Py S A := fun s => Waiting s [].
Definition get {S : Type} : Py S S := fun s => Returned s s [].
Definition put {S : Type} (s : S) : Py S unit := fun _ => Returned tt s [].

(** [print(line, flush=True)] *)
Definition print {S : Type} (line : pystr) : Py S unit := fun s => Returned tt s [line].

(** A call into AT-SPI. *)
Definition call {S A : Type} (o : outcome A) : Py S A :=
  match o with Ok a => ret a | Raise => raise Exception end.

(** [try: body / except Exception: handler] *)
Definition try_except {S A : Type} (body handler : Py S A) : Py S A :=
  fun s =>
    match body s with
    | Raised Exception s' o => after o (handler s')
    | r => r
    end.

(** [try: body / except KeyboardInterrupt: handler] *)
Definition try_except_interrupt {S A : Type} (body handler : Py S A) : Py S A :=
  fun s =>
    match body s with
    | Raised KeyboardInterrupt s' o => after o (handler s')
    | r => r
    end.

(** ** Output encoder ([_emit_text], lines 58-64) *)

Definition _emit_text {S : Type} (prefix value : pystr) : Py S unit :=
  let truncated := slice_to MAX_OUTPUT_CHARS value in
  if contains_char LF truncated || contains_char CR truncated then
    let encoded := ascii_decode (b64encode (utf8_encode truncated)) in
    print (prefix ++ lit "_B64:" ++ encoded)
  else
    print (prefix ++ lit ":" ++ truncated).

(** ** The watcher's state

    [last_value] is the cell of line 120, [loop_running] the flag of the
    GLib main loop that [loop.quit()] clears, [timer] the one-shot
    [threading.Timer]. *)

Inductive TimerState : Type := Unstarted | Pending | Fired | Cancelled.

Record World : Type := {
  last_value : pystr;
  loop_running : bool;
  timer : TimerState
}.

Definition set_last_value (v : pystr) (w : World) : World :=
  {| last_value := v; loop_running := loop_running w; timer := timer w |}.
Definition set_loop_running (b : bool) (w : World) : World :=
  {| last_value := last_value w; loop_running := b; timer := timer w |}.
Definition set_timer (t : TimerState) (w : World) : World :=
  {| last_value := last_value w; loop_running := loop_running w; timer := t |}.

(** The state the interpreter starts [main] in: nothing assigned yet. *)
Definition boot : World :=
  {| last_value := []; loop_running := false; timer := Unstarted |}.

Definition modify (f : World -> World) : Py World unit :=
  w <- get ;; put (f w).

(** ** Change handler ([on_text_changed], lines 123-135) *)

Inductive ChangeKind : Type := Insert | Delete.

Record Event : Type := { detail : ChangeKind; source : Accessible }.

Definition on_text_changed (event : Event) : Py World unit :=
  try_except
    (let source := source event in
     ti <- call (get_text_iface source) ;;
     match ti with
     | None => ret tt
     | Some ti =>
         cc <- call (get_character_count ti) ;;
         new_value <- call (get_text ti 0 (Z.min cc MAX_OUTPUT_CHARS)) ;;
         w <- get ;;
         if negb (pystr_eqb new_value (last_value w)) then
           put (set_last_value new_value w) ;;
           _emit_text (lit "CHANGED") new_value
         else ret tt
     end)
    (ret tt).

(** ** Run loop and shutdown (lines 137-162) *)

Inductive Signum : Type := SIGTERM | SIGINT.

(** What the run loop can be woken by: a text event of one of the two kinds
    [on_text_changed] is registered for (lines 137-142), the expiry of the
    timer, one of the two signals [sigterm_handler] is installed for, or an
    interrupt that surfaces from [loop.run()] as [KeyboardInterrupt]. *)
Inductive LoopEvent : Type :=
| TextChanged (event : Event)
| TimerElapsed
| Signal (signum : Signum)
| Interrupt.

(** [loop.quit()] *)
Definition loop_quit : Py World unit := modify (set_loop_running false).

Definition timeout_handler : Py World unit := loop_quit.

Definition sigterm_handler (signum : Signum) : Py World unit := loop_quit.

(** [timer.start()] and [timer.cancel()]: cancelling stops a timer that is
    still pending and does nothing to one that has fired. *)
Definition timer_start : Py World unit := modify (set_timer Pending).

Definition timer_cancel : Py World unit :=
  w <- get ;;
  match timer w with
  | Pending => put (set_timer Cancelled w)
  | _ => ret tt
  end.

Definition dispatch (e : LoopEvent) : Py World unit :=
  match e with
  | TextChanged event => on_text_changed event
  | TimerElapsed =>
      w <- get ;;
      match timer w with
      | Pending => put (set_timer Fired w) ;; timeout_handler
      | _ => ret tt
      end
  | Signal signum => sigterm_handler signum
  | Interrupt => raise KeyboardInterrupt
  end.

(** One turn of the loop per event; the loop returns as soon as a handler
    has cleared the flag, and waits when nothing is left to deliver. *)
Fixpoint loop_iterate (events : list LoopEvent) : Py World unit :=
  match events with
  | [] => wait
  | e :: rest =>
      dispatch e ;;
      w <- get ;;
      if loop_running w then loop_iterate rest else ret tt
  end.

(** [loop.run()] *)
Definition loop_run (events : list LoopEvent) : Py World unit :=
  modify (set_loop_running true) ;;
  loop_iterate events.

(** ** [main] (lines 67-162)

    The desktop is given by what [get_child_at_index] answers at each index
    below its child count; the events are those the run loop is woken by, in
    the order they arrive.  Time is not part of the state: the thirty
    seconds of [TIMEOUT_SECONDS] have passed when [TimerElapsed] arrives.

    The calls [main] makes outside any [try] may raise as well; an
    exception there is caught by nobody and ends the process. *)

Record Unguarded : Type := {
  atspi_init : outcome unit;               (* line 78 *)
  atspi_get_desktop : outcome unit;        (* line 81 *)
  desktop_get_child_count : outcome unit;  (* line 85 *)
  main_loop_new : outcome unit;            (* line 121 *)
  register_insert : outcome unit;          (* lines 137-139 *)
  register_delete : outcome unit;          (* lines 140-142 *)
  timer_thread_start : outcome unit;       (* lines 147-149 *)
  signal_sigterm : outcome unit;           (* line 154 *)
  signal_sigint : outcome unit             (* line 155 *)
}.

Record Env : Type := {
  stdin_line : outcome pystr;
  HAS_ATSPI : bool;
  recursion_limit : nat;
  unguarded : Unguarded;
  desktop : list Slot
}.

Definition NO_ELEMENT : pystr := lit "NO_ELEMENT".
Definition NO_VALUE : pystr := lit "NO_VALUE".

Definition main (env : Env) (events : list LoopEvent) : Py World unit :=
  try_except (_ <- call (stdin_line env) ;; ret tt) (ret tt) ;;
  (if negb (HAS_ATSPI env) then print NO_ELEMENT ;; sys_exit 1 else ret tt) ;;
  call (atspi_init (unguarded env)) ;;
  call (atspi_get_desktop (unguarded env)) ;;
  call (desktop_get_child_count (unguarded env)) ;;
  match for_apps (recursion_limit env) (desktop env) with
  | None => print NO_ELEMENT ;; sys_exit 1
  | Some focused =>
      text_iface <-
        try_except
          (ti <- call (get_text_iface focused) ;;
           match ti with
           | None => print NO_VALUE ;; sys_exit 0
           | Some ti => ret ti
           end)
          (print NO_VALUE ;; sys_exit 0) ;;
      initial_value <-
        try_except
          (char_count <- call (get_character_count text_iface) ;;
           initial_value <-
             call (get_text text_iface 0 (Z.min char_count MAX_OUTPUT_CHARS)) ;;
           _emit_text (lit "INITIAL_VALUE") initial_value ;;
           ret initial_value)
          (print NO_VALUE ;; sys_exit 0) ;;
      modify (set_last_value initial_value) ;;
      call (main_loop_new (unguarded env)) ;;
      call (register_insert (unguarded env)) ;;
      call (register_delete (unguarded env)) ;;
      call (timer_thread_start (unguarded env)) ;;
      timer_start ;;
      call (signal_sigterm (unguarded env)) ;;
      call (signal_sigint (unguarded env)) ;;
      try_except_interrupt (loop_run events) (ret tt) ;;
      timer_cancel
  end.

(** What the caller of the script observes: the lines on standard output
    and, once the process has ended, its exit status.  Returning from [main]
    is status 0, [sys.exit(n)] is status [n], an exception nobody caught is
    status 1. *)
Record Process : Type := { stdout : list pystr; exit_status : option Z }.

Definition observe {S A : Type} (r : Res S A) : Process :=
  match r with
  | Returned _ _ o => {| stdout := o; exit_status := Some 0 |}
  | Raised (SystemExit n) _ o => {| stdout := o; exit_status := Some n |}
  | Raised _ _ o => {| stdout := o; exit_status := Some 1 |}
  | Waiting _ o => {| stdout := o; exit_status := None |}
  end.

Definition run (env : Env) (events : list LoopEvent) : Process :=
  observe (main env events boot).

(** ** Examples *)

Definition text_field (n : Z) (states : StateSet) (t : pystr) : Accessible :=
  Element n (Ok states) (Ok [])
          (Ok (Some {| text := t; count_raises := false; read_raises := false |})).

Definition container (n : Z) (kids : list Accessible) : Accessible :=
  Element n (Ok [VISIBLE]) (Ok (map (fun k => Ok (Some k)) kids)) (Ok None).

(** Every unguarded call returns. *)
Definition all_return : Unguarded :=
  {| atspi_init := Ok tt; atspi_get_desktop := Ok tt;
     desktop_get_child_count := Ok tt; main_loop_new := Ok tt;
     register_insert := Ok tt; register_delete := Ok tt;
     timer_thread_start := Ok tt; signal_sigterm := Ok tt;
     signal_sigint := Ok tt |}.

(** A session on a desktop: the layer is there, every unguarded call
    returns, and the search may nest 1000 calls, more than the interpreter
    allows it with its limit of 1000 frames for the whole stack. *)
Definition session (d : list Slot) : Env :=
  {| stdin_line := Ok (lit "pasted"); HAS_ATSPI := true;
     recursion_limit := 1000; unguarded := all_return; desktop := d |}.

Definition edit (t : pystr) : LoopEvent :=
  TextChanged {| detail := Insert; source := text_field 7 [FOCUSED] t |}.

Definition hello_desktop : list Slot :=
  [Ok (Some (container 1 [text_field 2 [VISIBLE] (lit "other");
                          text_field 7 [VISIBLE; FOCUSED] (lit "hello")]))].


(** ** Notions the properties are stated with *)

(** The first [MAX_OUTPUT_CHARS] characters. *)
Definition truncate (s : pystr) : pystr := firstn (Z.to_nat 10240) s.

Definition has_line_break (s : pystr) : bool :=
  contains_char LF s || contains_char CR s.

(** The line [_emit_text] prints. *)
Definition protocol_line (prefix value : pystr) : pystr :=
  let t := truncate value in
  if has_line_break t
  then prefix ++ lit "_B64:" ++ ascii_decode (b64encode (utf8_encode t))
  else prefix ++ lit ":" ++ t.


(** An element whose state set can be read and holds FOCUSED. *)
Definition is_focused (a : Accessible) : bool :=
  match get_state_set a with
  | Ok ss => contains ss FOCUSED
  | Raise => false
  end.

(** Every element of a tree, in pre-order: the element, then the trees of
    its children from left to right (a null or raising slot holds none). *)
Fixpoint elements (a : Accessible) : list Accessible :=
  a :: match get_children a with
       | Raise => []
       | Ok slots =>
           (fix elements_of (slots : list Slot) : list Accessible :=
              match slots with
              | [] => []
              | Ok (Some c) :: rest => elements c ++ elements_of rest
              | _ :: rest => elements_of rest
              end) slots
       end.

Fixpoint elements_of (slots : list Slot) : list Accessible :=
  match slots with
  | [] => []
  | Ok (Some c) :: rest => elements c ++ elements_of rest
  | _ :: rest => elements_of rest
  end.

(** The elements a pre-order walk reaches, in the order it reaches them: it
    goes no deeper below an element whose state or child count cannot be
    read, leaves the children of an element at the first slot that raises,
    and leaves them as well at the first child it has no frame left to
    call the search on. *)
Fixpoint visit_order (frames : nat) (a : Accessible) {struct a} : list Accessible :=
  a :: match get_state_set a, get_children a with
       | Ok _, Ok slots =>
           (fix visit_slots (slots : list Slot) : list Accessible :=
              match slots with
              | [] => []
              | Raise :: _ => []
              | Ok None :: rest => visit_slots rest
              | Ok (Some c) :: rest =>
                  match frames with
                  | O => []
                  | S deeper => visit_order deeper c ++ visit_slots rest
                  end
              end) slots
       | _, _ => []
       end.

Definition visit_slots (frames : nat) : list Slot -> list Accessible :=
  fix visit_slots (slots : list Slot) : list Accessible :=
    match slots with
    | [] => []
    | Raise :: _ => []
    | Ok None :: rest => visit_slots rest
    | Ok (Some c) :: rest =>
        match frames with
        | O => []
        | S deeper => visit_order deeper c ++ visit_slots rest
        end
    end.

(** How many calls the search of a whole tree nests below the first. *)
Fixpoint height (a : Accessible) : nat :=
  match get_children a with
  | Raise => O
  | Ok slots =>
      (fix height_of (slots : list Slot) : nat :=
         match slots with
         | [] => O
         | Ok (Some c) :: rest => Nat.max (S (height c)) (height_of rest)
         | _ :: rest => height_of rest
         end) slots
  end.

Fixpoint height_of (slots : list Slot) : nat :=
  match slots with
  | [] => O
  | Ok (Some c) :: rest => Nat.max (S (height c)) (height_of rest)
  | _ :: rest => height_of rest
  end.

(** No query on this element raises. *)
Definition queries_ok (a : Accessible) : bool :=
  match get_state_set a, get_children a with
  | Ok _, Ok slots =>
      forallb (fun sl : Slot => match sl with Ok _ => true | Raise => false end) slots
  | _, _ => false
  end.

Definition error_free (a : Accessible) : bool := forallb queries_ok (elements a).

(** The applications of a desktop, and all its elements. *)
Fixpoint desktop_apps (d : list Slot) : list Accessible :=
  match d with
  | [] => []
  | Ok (Some app) :: rest => app :: desktop_apps rest
  | _ :: rest => desktop_apps rest
  end.

Definition desktop_elements (d : list Slot) : list Accessible :=
  flat_map elements (desktop_apps d).

(** The first result some element of a list gives. *)
Fixpoint first_some {A B : Type} (f : A -> option B) (l : list A) : option B :=
  match l with
  | [] => None
  | x :: rest => match f x with Some y => Some y | None => first_some f rest end
  end.


(** A tree with a stale node: the first application cannot be read, the
    second holds a destroyed child slot before a null one, the third holds
    the focused field. *)
Definition stale (n : Z) : Accessible := Element n Raise (Ok []) Raise.

Definition broken_desktop : list Slot :=
  [Ok (Some (stale 1));
   Raise;
   Ok None;
   Ok (Some (Element 2 (Ok [VISIBLE])
                     (Ok [Ok (Some (stale 3)); Raise;
                          Ok (Some (text_field 4 [FOCUSED] (lit "lost")))])
                     (Ok None)));
   Ok (Some (container 5 [stale 6;
                          text_field 7 [FOCUSED] (lit "hello");
                          text_field 8 [FOCUSED] (lit "later")]))].

(** The text the script reads from an element: the first
    [MAX_OUTPUT_CHARS] characters, or nothing when the element has no text
    interface or one of the calls raises. *)
Definition read_text (a : Accessible) : option pystr :=
  match get_text_iface a with
  | Ok (Some ti) =>
      if count_raises ti || read_raises ti then None
      else Some (truncate (text ti))
  | _ => None
  end.

(** The same element holding another text. *)
Definition with_text (a : Accessible) (t : pystr) : Accessible :=
  match a with
  | Element n st ch (Ok (Some ti)) =>
      Element n st ch
              (Ok (Some {| text := t; count_raises := count_raises ti;
                           read_raises := read_raises ti |}))
  | _ => a
  end.

(** The part of [main] that runs once the initial value is out (lines
    144-162), and the state it starts in. *)
Definition run_until_stopped (events : list LoopEvent) : Py World unit :=
  try_except_interrupt (loop_run events) (ret tt) ;;
  timer_cancel.

Definition watching_from (v : pystr) (w : World) : World :=
  set_timer Pending (set_last_value v w).

(** The events that ask the loop to stop. *)
Definition stops (e : LoopEvent) : bool :=
  match e with
  | TextChanged _ => false
  | TimerElapsed | Signal _ | Interrupt => true
  end.

(** What a reader of the protocol does with a plain line: drop the tag, up
    to and with the first colon. *)
Fixpoint strip_tag (line : pystr) : pystr :=
  match line with
  | [] => []
  | c :: rest => if uchar_eqb c (chr 58) then rest else strip_tag rest
  end.

(** What [main] does with the way [loop.run()] ended (lines 157-162): a
    return or a [KeyboardInterrupt] leads to [timer.cancel()]. *)
Definition finish (r : Res World unit) : Res World unit :=
  match r with
  | Returned _ s o => after o (timer_cancel s)
  | Raised KeyboardInterrupt s o => after o (timer_cancel s)
  | Raised e s o => Raised e s o
  | Waiting s o => Waiting s o
  end.

(** The watcher's state keeps a value of at most [MAX_OUTPUT_CHARS]
    characters. *)
Definition bounded (w : World) : Prop :=
  (List.length (last_value w) <= Z.to_nat 10240)%nat.

(** A field holding 10241 letters, one more than is ever read. *)
Definition long_text : pystr := repeat (chr 97) (Z.to_nat 10241).

Definition long_session : Env :=
  session [Ok (Some (text_field 7 [FOCUSED] long_text))].

(** The long text with something else past the bound. *)
Definition long_text_edited : pystr := truncate long_text ++ lit "edited".

(** ** Reading base64 back

    The decoder of RFC 4648, to check the encoder against: four digits give
    three bytes, a padded group one or two. *)

Fixpoint index_of (d : Z) (l : list ascii) (i : Z) : Z :=
  match l with
  | [] => 0
  | a :: rest => if Z.of_N (N_of_ascii a) =? d then i else index_of d rest (i + 1)
  end.

Definition b64_value (d : Z) : Z := index_of d b64_alphabet 0.

Fixpoint b64decode (ds : bytes) : bytes :=
  match ds with
  | d1 :: d2 :: d3 :: d4 :: rest =>
      let v1 := b64_value d1 in
      let v2 := b64_value d2 in
      let v3 := b64_value d3 in
      let v4 := b64_value d4 in
      let byte1 := Z.lor (Z.shiftl v1 2) (Z.shiftr v2 4) in
      let byte2 := Z.lor (Z.shiftl (Z.land v2 15) 4) (Z.shiftr v3 2) in
      let byte3 := Z.lor (Z.shiftl (Z.land v3 3) 6) v4 in
      if d3 =? b64_pad then [byte1]
      else if d4 =? b64_pad then [byte1; byte2]
      else byte1 :: byte2 :: byte3 :: b64decode rest
  | _ => []
  end.

Definition is_byte (b : Z) : Prop := 0 <= b < 256.

Definition byte_range : list Z := map Z.of_nat (seq 0 256).

(** ** Notions for the whole run *)

(** Each value differs from the one before it, the first from [prev]. *)
Fixpoint each_differs (prev : pystr) (values : list pystr) : Prop :=
  match values with
  | [] => True
  | v :: rest => v <> prev /\ each_differs v rest
  end.

Definition short (v : pystr) : Prop :=
  (List.length v <= Z.to_nat 10240)%nat.

(** The same session fed another first line on standard input. *)
Definition with_stdin (env : Env) (line : outcome pystr) : Env :=
  {| stdin_line := line; HAS_ATSPI := HAS_ATSPI env;
     recursion_limit := recursion_limit env; unguarded := unguarded env;
     desktop := desktop env |}.


(** An event whose source has lost its text interface. *)
Definition stale_event : LoopEvent :=
  TextChanged {| detail := Insert; source := stale 9 |}.

(** ** Reading a line back

    What a consumer of the protocol does with a line whose tag it knows:
    the base64 form is decoded to bytes and those from UTF-8 to text, the
    plain form is taken as it stands. *)

(** [s] without the leading [p], when it starts with [p]. *)
Fixpoint strip_prefix (p s : pystr) : option pystr :=
  match p, s with
  | [], _ => Some s
  | a :: p', b :: s' => if uchar_eqb a b then strip_prefix p' s' else None
  | _ :: _, [] => None
  end.

(** UTF-8 to text, by the length the first byte of each character
    announces. *)
Fixpoint utf8_decode (bs : bytes) : option pystr :=
  match bs with
  | [] => Some []
  | b1 :: r1 =>
      if b1 <? 0x80 then option_map (cons (chr b1)) (utf8_decode r1)
      else if b1 <? 0xC0 then None
      else if b1 <? 0xE0 then
        match r1 with
        | b2 :: r2 =>
            option_map
              (cons (chr (Z.lor (Z.shiftl (Z.land b1 0x1F) 6) (Z.land b2 0x3F))))
              (utf8_decode r2)
        | _ => None
        end
      else if b1 <? 0xF0 then
        match r1 with
        | b2 :: b3 :: r3 =>
            option_map
              (cons (chr (Z.lor (Z.lor (Z.shiftl (Z.land b1 0x0F) 12)
                                       (Z.shiftl (Z.land b2 0x3F) 6))
                                (Z.land b3 0x3F))))
              (utf8_decode r3)
        | _ => None
        end
      else
        match r1 with
        | b2 :: b3 :: b4 :: r4 =>
            option_map
              (cons (chr (Z.lor (Z.lor (Z.lor (Z.shiftl (Z.land b1 0x07) 18)
                                              (Z.shiftl (Z.land b2 0x3F) 12))
                                       (Z.shiftl (Z.land b3 0x3F) 6))
                                (Z.land b4 0x3F))))
              (utf8_decode r4)
        | _ => None
        end
  end.

Definition read_line (tag line : pystr) : option pystr :=
  match strip_prefix (tag ++ lit "_B64:") line with
  | Some encoded => utf8_decode (b64decode (map ord encoded))
  | None => strip_prefix (tag ++ lit ":") line
  end.

(** ** Calls outside any [try], and the depth of the search *)

Definition returns (o : outcome unit) : bool :=
  match o with Ok _ => true | Raise => false end.

(** The calls before the search (lines 78-85) all return. *)
Definition startup_returns (env : Env) : bool :=
  returns (atspi_init (unguarded env))
  && returns (atspi_get_desktop (unguarded env))
  && returns (desktop_get_child_count (unguarded env)).

(** The calls up to the start of the timer (lines 121-149) all return. *)
Definition timer_armed (env : Env) : bool :=
  returns (main_loop_new (unguarded env))
  && returns (register_insert (unguarded env))
  && returns (register_delete (unguarded env))
  && returns (timer_thread_start (unguarded env)).

(** The calls between the initial value and the loop (lines 121-155) all
    return. *)
Definition setup_returns (env : Env) : bool :=
  timer_armed env
  && returns (signal_sigterm (unguarded env))
  && returns (signal_sigint (unguarded env)).

(** What [main] does from line 121 on, in the state line 120 leaves: the
    loop, or the exception of the first call that raises. *)
Definition watch_phase (env : Env) (events : list LoopEvent) (w : World)
  : Res World unit :=
  if setup_returns env then run_until_stopped events (set_timer Pending w)
  else Raised Exception (if timer_armed env then set_timer Pending w else w) [].





(** A session in which one of the unguarded calls raises. *)
Definition no_registry : Env :=
  {| stdin_line := Ok (lit "pasted"); HAS_ATSPI := true; recursion_limit := 1000;
     unguarded :=
       {| atspi_init := Ok tt; atspi_get_desktop := Ok tt;
          desktop_get_child_count := Raise; main_loop_new := Ok tt;
          register_insert := Ok tt; register_delete := Ok tt;
          timer_thread_start := Ok tt; signal_sigterm := Ok tt;
          signal_sigint := Ok tt |};
     desktop := [] |}.


(** No query raises in the tree and the search, with [frames] calls to nest
    below the first, gets to its bottom. *)
Definition within_reach (frames : nat) (a : Accessible) : bool :=
  error_free a && (height a <=? frames)%nat.
(** * Properties *)

(** ** Text *)

Lemma uchar_ext (a b : uchar) : code a = code b -> a = b.
Proof.
  destruct a as [x Hx], b as [y Hy]; simpl; intros ->.
  f_equal. apply UIP_dec. apply bool_dec.
Qed.

Lemma uchar_eqb_eq (a b : uchar) : uchar_eqb a b = true <-> a = b.
Proof.
  unfold uchar_eqb. rewrite Z.eqb_eq. split.
  - apply uchar_ext.
  - now intros ->.
Qed.

Lemma uchar_eqb_refl (a : uchar) : uchar_eqb a a = true.
Proof. now apply uchar_eqb_eq. Qed.

Lemma pystr_eqb_eq (s t : pystr) : pystr_eqb s t = true <-> s = t.
Proof.
  revert t. induction s as [|a s IH]; intros [|b t]; simpl; try easy.
  rewrite andb_true_iff, uchar_eqb_eq, IH. split.
  - now intros [-> ->].
  - intros H; now inversion H.
Qed.

Lemma pystr_eqb_refl (s : pystr) : pystr_eqb s s = true.
Proof. now apply pystr_eqb_eq. Qed.

Lemma pystr_eqb_neq (s t : pystr) : pystr_eqb s t = false <-> s <> t.
Proof.
  rewrite <- pystr_eqb_eq. destruct (pystr_eqb s t); split; congruence.
Qed.

Lemma contains_char_In (c : uchar) (s : pystr) :
  contains_char c s = true <-> In c s.
Proof.
  unfold contains_char. rewrite existsb_exists. split.
  - intros [x [Hin Heq]]. apply uchar_eqb_eq in Heq. now subst.
  - intros Hin. exists c. split; [assumption | apply uchar_eqb_refl].
Qed.

Lemma contains_char_not_In (c : uchar) (s : pystr) :
  contains_char c s = false <-> ~ In c s.
Proof.
  rewrite <- contains_char_In. destruct (contains_char c s); split; congruence.
Qed.

Lemma slice_to_truncate (s : pystr) : slice_to MAX_OUTPUT_CHARS s = truncate s.
Proof. reflexivity. Qed.

Lemma truncate_idem (s : pystr) : truncate (truncate s) = truncate s.
Proof. unfold truncate. rewrite firstn_firstn. now rewrite Nat.min_id. Qed.

Lemma truncate_length (s : pystr) :
  (List.length (truncate s) <= Z.to_nat 10240)%nat.
Proof. unfold truncate. rewrite length_firstn. lia. Qed.

Lemma truncate_short (s : pystr) :
  (List.length s <= Z.to_nat 10240)%nat -> truncate s = s.
Proof. intros H. unfold truncate. now apply firstn_all2. Qed.

Lemma truncate_prefix (s : pystr) : exists rest, s = truncate s ++ rest.
Proof.
  exists (skipn (Z.to_nat 10240) s). unfold truncate.
  now rewrite firstn_skipn.
Qed.

(** Reading [min(character count, MAX_OUTPUT_CHARS)] characters from offset 0
    gives the first [MAX_OUTPUT_CHARS] characters of the text. *)
Lemma slice_min_truncate (s : pystr) :
  slice 0 (Z.min (len s) MAX_OUTPUT_CHARS) s = truncate s.
Proof.
  unfold slice, truncate, len, MAX_OUTPUT_CHARS. simpl skipn.
  rewrite Z.sub_0_r.
  destruct (Z.le_gt_cases (Z.of_nat (List.length s)) 10240) as [H|H].
  - rewrite Z.min_l by assumption. rewrite Nat2Z.id.
    rewrite firstn_all. symmetry. apply firstn_all2. lia.
  - rewrite Z.min_r by lia. reflexivity.
Qed.

Lemma has_line_break_true (s : pystr) :
  has_line_break s = true <-> In LF s \/ In CR s.
Proof.
  unfold has_line_break. now rewrite orb_true_iff, !contains_char_In.
Qed.

Lemma has_line_break_false (s : pystr) :
  has_line_break s = false <-> ~ In LF s /\ ~ In CR s.
Proof.
  unfold has_line_break. now rewrite orb_false_iff, !contains_char_not_In.
Qed.

(** ** The encodings *)

Example utf8_one_to_four_bytes :
  utf8_encode [chr 0x41; chr 0xE9; chr 0x20AC; chr 0x1F600]
  = [0x41; 0xC3; 0xA9; 0xE2; 0x82; 0xAC; 0xF0; 0x9F; 0x98; 0x80].
Proof. reflexivity. Qed.

Example b64encode_rfc4648 :
  map (fun s => ascii_decode (b64encode (utf8_encode (lit s))))
      ["f"; "fo"; "foo"; "foob"; "fooba"; "foobar"]%string
  = map lit ["Zg=="; "Zm8="; "Zm9v"; "Zm9vYg=="; "Zm9vYmE="; "Zm9vYmFy"]%string.
Proof. reflexivity. Qed.

Lemma byte_range_In (b : Z) : is_byte b -> In b byte_range.
Proof.
  intros H. unfold byte_range. rewrite <- (Z2Nat.id b) by apply H.
  apply in_map, in_seq. unfold is_byte in H. lia.
Qed.

(** A fact about one or two bytes, settled by trying them all. *)
Lemma for_all_bytes (f : Z -> bool) :
  forallb f byte_range = true -> forall b, is_byte b -> f b = true.
Proof.
  intros H b Hb. rewrite forallb_forall in H. apply H. now apply byte_range_In.
Qed.

Lemma for_all_byte_pairs (f : Z -> Z -> bool) :
  forallb (fun a => forallb (f a) byte_range) byte_range = true ->
  forall a b, is_byte a -> is_byte b -> f a b = true.
Proof.
  intros H a b Ha Hb.
  apply (for_all_bytes (f a)); [|assumption].
  now apply (for_all_bytes (fun a => forallb (f a) byte_range)).
Qed.

(** A digit read back is the six bits it stands for, and no padding. *)
Lemma b64_value_digit (i : Z) :
  0 <= i < 64 -> b64_value (b64_digit i) = i /\ b64_digit i <> b64_pad.
Proof.
  intros Hi.
  pose proof (for_all_bytes
    (fun i => (64 <=? i)
              || ((b64_value (b64_digit i) =? i) && negb (b64_digit i =? b64_pad))))
    as H.
  specialize (H ltac:(vm_compute; reflexivity) i ltac:(unfold is_byte; lia)).
  simpl in H. apply orb_true_iff in H as [H|H]; [apply Z.leb_le in H; lia|].
  apply andb_true_iff in H as [H1 H2].
  rewrite Z.eqb_eq in H1. rewrite negb_true_iff, Z.eqb_neq in H2. auto.
Qed.

(** The six-bit groups of two and three bytes, put together again. *)
Lemma b64_first_groups (a b : Z) :
  is_byte a -> is_byte b ->
  let i1 := Z.shiftr a 2 in
  let i2 := Z.lor (Z.shiftl (Z.land a 3) 4) (Z.shiftr b 4) in
  0 <= i1 < 64 /\ 0 <= i2 < 64 /\
  Z.lor (Z.shiftl i1 2) (Z.shiftr i2 4) = a /\
  Z.land i2 15 = Z.shiftr b 4.
Proof.
  intros Ha Hb i1 i2. subst i1 i2.
  pose proof (for_all_byte_pairs
    (fun a b =>
       let i1 := Z.shiftr a 2 in
       let i2 := Z.lor (Z.shiftl (Z.land a 3) 4) (Z.shiftr b 4) in
       (0 <=? i1) && (i1 <? 64) && (0 <=? i2) && (i2 <? 64)
       && (Z.lor (Z.shiftl i1 2) (Z.shiftr i2 4) =? a)
       && (Z.land i2 15 =? Z.shiftr b 4))) as H.
  specialize (H ltac:(vm_compute; reflexivity) a b Ha Hb). cbv zeta in H.
  repeat (apply andb_true_iff in H as [H ?]).
  repeat match goal with
         | E : (_ <=? _) = true |- _ => apply Z.leb_le in E
         | E : (_ <? _) = true |- _ => apply Z.ltb_lt in E
         | E : (_ =? _) = true |- _ => apply Z.eqb_eq in E
         end.
  auto.
Qed.

Lemma b64_last_groups (b c : Z) :
  is_byte b -> is_byte c ->
  let i3 := Z.lor (Z.shiftl (Z.land b 15) 2) (Z.shiftr c 6) in
  let i4 := Z.land c 63 in
  0 <= i3 < 64 /\ 0 <= i4 < 64 /\
  Z.lor (Z.shiftl (Z.shiftr b 4) 4) (Z.shiftr i3 2) = b /\
  Z.lor (Z.shiftl (Z.land i3 3) 6) i4 = c.
Proof.
  intros Hb Hc i3 i4. subst i3 i4.
  pose proof (for_all_byte_pairs
    (fun b c =>
       let i3 := Z.lor (Z.shiftl (Z.land b 15) 2) (Z.shiftr c 6) in
       let i4 := Z.land c 63 in
       (0 <=? i3) && (i3 <? 64) && (0 <=? i4) && (i4 <? 64)
       && (Z.lor (Z.shiftl (Z.shiftr b 4) 4) (Z.shiftr i3 2) =? b)
       && (Z.lor (Z.shiftl (Z.land i3 3) 6) i4 =? c))) as H.
  specialize (H ltac:(vm_compute; reflexivity) b c Hb Hc). cbv zeta in H.
  repeat (apply andb_true_iff in H as [H ?]).
  repeat match goal with
         | E : (_ <=? _) = true |- _ => apply Z.leb_le in E
         | E : (_ <? _) = true |- _ => apply Z.ltb_lt in E
         | E : (_ =? _) = true |- _ => apply Z.eqb_eq in E
         end.
  auto.
Qed.

(** Induction on a list of bytes, three at a time. *)
Lemma bytes_ind3 (P : bytes -> Prop) :
  P [] -> (forall a, P [a]) -> (forall a b, P [a; b]) ->
  (forall a b c rest, P rest -> P (a :: b :: c :: rest)) ->
  forall bs, P bs.
Proof.
  intros H0 H1 H2 H3. fix IH 1.
  intros [|a [|b [|c rest]]]; [exact H0 | apply H1 | apply H2 | apply H3, IH].
Qed.

(** Decoding what [b64encode] gives returns the bytes. *)
Lemma b64decode_b64encode (bs : bytes) :
  Forall is_byte bs -> b64decode (b64encode bs) = bs.
Proof.
  assert (is_byte 0) as H0 by (unfold is_byte; lia).
  induction bs as [|a|a b|a b c rest IH] using bytes_ind3; intros H.
  - reflexivity.
  - inversion_clear H as [|? ? Ha _].
    destruct (b64_first_groups a 0 Ha H0) as [R1 [R2 [E _]]].
    change (Z.shiftr 0 4) with 0 in R2, E. rewrite Z.lor_0_r in R2, E.
    destruct (b64_value_digit _ R1) as [V1 _].
    destruct (b64_value_digit _ R2) as [V2 _].
    cbn [b64encode b64decode]. rewrite Z.eqb_refl. cbv zeta.
    now rewrite V1, V2, E.
  - inversion_clear H as [|? ? Ha H']. inversion_clear H' as [|? ? Hb _].
    destruct (b64_first_groups a b Ha Hb) as [R1 [R2 [E1 E2]]].
    destruct (b64_last_groups b 0 Hb H0) as [R3 [_ [E3 _]]].
    change (Z.shiftr 0 6) with 0 in R3, E3. rewrite Z.lor_0_r in R3, E3.
    destruct (b64_value_digit _ R1) as [V1 _].
    destruct (b64_value_digit _ R2) as [V2 _].
    destruct (b64_value_digit _ R3) as [V3 N3].
    cbn [b64encode b64decode].
    apply Z.eqb_neq in N3. rewrite N3, Z.eqb_refl. cbv zeta.
    now rewrite V1, V2, V3, E1, E2, E3.
  - inversion_clear H as [|? ? Ha H']. inversion_clear H' as [|? ? Hb H''].
    inversion_clear H'' as [|? ? Hc Hrest].
    destruct (b64_first_groups a b Ha Hb) as [R1 [R2 [E1 E2]]].
    destruct (b64_last_groups b c Hb Hc) as [R3 [R4 [E3 E4]]].
    destruct (b64_value_digit _ R1) as [V1 _].
    destruct (b64_value_digit _ R2) as [V2 _].
    destruct (b64_value_digit _ R3) as [V3 N3].
    destruct (b64_value_digit _ R4) as [V4 N4].
    cbn [b64encode b64decode].
    apply Z.eqb_neq in N3, N4. rewrite N3, N4. cbv zeta.
    now rewrite V1, V2, V3, V4, E1, E2, E3, E4, IH.
Qed.

(** UTF-8 gives bytes. *)
Lemma lor_byte (a b : Z) : is_byte a -> is_byte b -> is_byte (Z.lor a b).
Proof.
  intros Ha Hb.
  pose proof (for_all_byte_pairs
                (fun a b => (0 <=? Z.lor a b) && (Z.lor a b <? 256))) as H.
  specialize (H ltac:(vm_compute; reflexivity) a b Ha Hb). cbv beta in H.
  apply andb_true_iff in H as [H1 H2].
  apply Z.leb_le in H1. apply Z.ltb_lt in H2. now split.
Qed.

Lemma low_six_bits (n : Z) : is_byte (Z.lor 0x80 (Z.land n 0x3F)).
Proof.
  apply lor_byte; [unfold is_byte; lia|].
  change 0x3F with (Z.ones 6). rewrite Z.land_ones by lia.
  pose proof (Z.mod_pos_bound n (2 ^ 6) ltac:(lia)). unfold is_byte. lia.
Qed.

Lemma lead_byte (tag n k bound : Z) :
  is_byte tag -> 0 <= k -> 0 <= n < bound * 2 ^ k -> 0 < bound <= 256 ->
  is_byte (Z.lor tag (Z.shiftr n k)).
Proof.
  intros Htag Hk Hn Hbound. apply lor_byte; [assumption|].
  rewrite Z.shiftr_div_pow2 by assumption.
  assert (0 < 2 ^ k) by (apply Z.pow_pos_nonneg; lia).
  split.
  - apply Z.div_pos; lia.
  - apply Z.lt_le_trans with bound; [|lia].
    apply Z.div_lt_upper_bound; lia.
Qed.

Lemma utf8_char_bytes (c : uchar) : Forall is_byte (utf8_char c).
Proof.
  destruct c as [n Hn]. unfold utf8_char, is_scalar in *. simpl code.
  assert (0 <= n <= 0x10FFFF) as Hr.
  { apply orb_true_iff in Hn as [H|H]; apply andb_true_iff in H as [H1 H2];
      apply Z.leb_le in H1; first [apply Z.ltb_lt in H2 | apply Z.leb_le in H2]; lia. }
  clear Hn.
  destruct (n <? 0x80) eqn:E1.
  { apply Z.ltb_lt in E1. apply Forall_cons; [unfold is_byte; lia | apply Forall_nil]. }
  destruct (n <? 0x800) eqn:E2; [|destruct (n <? 0x10000) eqn:E3];
    repeat apply Forall_cons; try apply Forall_nil; try apply low_six_bits.
  - apply Z.ltb_lt in E2. apply (lead_byte 0xC0 n 6 32); unfold is_byte; lia.
  - apply Z.ltb_lt in E3. apply (lead_byte 0xE0 n 12 16); unfold is_byte; lia.
  - apply (lead_byte 0xF0 n 18 8); unfold is_byte; lia.
Qed.

Lemma utf8_encode_bytes (s : pystr) : Forall is_byte (utf8_encode s).
Proof.
  unfold utf8_encode. induction s as [|c s IH]; simpl; [constructor|].
  apply Forall_app. split; [apply utf8_char_bytes | exact IH].
Qed.

(** The base64 of a text decodes to its UTF-8 bytes. *)
Lemma b64decode_text (s : pystr) :
  b64decode (b64encode (utf8_encode s)) = utf8_encode s.
Proof. apply b64decode_b64encode, utf8_encode_bytes. Qed.

(** What [b64encode] writes is digits and padding. *)
Lemma b64_digit_in (i : Z) :
  In (b64_digit i) (map (fun a => Z.of_N (N_of_ascii a)) (b64_alphabet ++ ["="%char])).
Proof.
  unfold b64_digit. apply (in_map (fun a => Z.of_N (N_of_ascii a))).
  destruct (nth_in_or_default (Z.to_nat i) b64_alphabet "="%char) as [H| ->];
    apply in_or_app; [now left | right; now left].
Qed.

Lemma b64encode_digits (bs : bytes) :
  Forall (fun d => In d (map (fun a => Z.of_N (N_of_ascii a))
                             (b64_alphabet ++ ["="%char])))
         (b64encode bs).
Proof.
  assert (In b64_pad (map (fun a => Z.of_N (N_of_ascii a))
                          (b64_alphabet ++ ["="%char]))) as Hpad.
  { apply in_map_iff. exists "="%char. split; [reflexivity|].
    apply in_or_app. right. now left. }
  induction bs as [|a|a b|a b c rest IH] using bytes_ind3;
    cbn [b64encode];
    repeat (apply Forall_cons; [first [apply b64_digit_in | exact Hpad]|]);
    first [exact IH | apply Forall_nil].
Qed.

Lemma b64_text_no_line_break (bs : bytes) :
  has_line_break (ascii_decode (b64encode bs)) = false.
Proof.
  apply has_line_break_false.
  assert (forall c, In c (ascii_decode (b64encode bs)) -> c <> LF /\ c <> CR) as H.
  { intros c Hc. unfold ascii_decode in Hc. apply in_map_iff in Hc as [d [<- Hd]].
    pose proof (b64encode_digits bs) as F. rewrite Forall_forall in F.
    specialize (F d Hd).
    assert (forallb (fun d => negb (uchar_eqb (chr d) LF) && negb (uchar_eqb (chr d) CR))
                    (map (fun a => Z.of_N (N_of_ascii a)) (b64_alphabet ++ ["="%char]))
            = true) as Hall by (vm_compute; reflexivity).
    rewrite forallb_forall in Hall. specialize (Hall d F).
    apply andb_true_iff in Hall as [H1 H2].
    rewrite negb_true_iff in H1, H2.
    split; intros E; rewrite E, uchar_eqb_refl in *; discriminate. }
  split; intros Hin; apply H in Hin; destruct Hin as [H1 H2]; congruence.
Qed.

(** ** Output encoder *)

Lemma emit_text_run (S : Type) (prefix value : pystr) (s : S) :
  _emit_text prefix value s = Returned tt s [protocol_line prefix value].
Proof.
  unfold _emit_text, protocol_line, has_line_break.
  rewrite slice_to_truncate.
  destruct (contains_char LF (truncate value) || contains_char CR (truncate value));
    reflexivity.
Qed.

(** What follows the prefix on a line holds no line break: the line is one
    line for its reader. *)
Lemma protocol_line_single (prefix value : pystr) :
  exists payload,
    protocol_line prefix value = prefix ++ payload /\
    ~ In LF payload /\ ~ In CR payload.
Proof.
  unfold protocol_line.
  destruct (has_line_break (truncate value)) eqn:E.
  - exists (lit "_B64:" ++ ascii_decode (b64encode (utf8_encode (truncate value)))).
    split; [reflexivity|].
    pose proof (b64_text_no_line_break (utf8_encode (truncate value))) as H.
    apply has_line_break_false in H as [H1 H2].
    split; intros Hin; apply in_app_or in Hin as [Hin|Hin]; auto;
      revert Hin; apply contains_char_not_In; reflexivity.
  - exists (lit ":" ++ truncate value). split; [reflexivity|].
    apply has_line_break_false in E as [H1 H2].
    split; intros Hin; apply in_app_or in Hin as [Hin|Hin]; auto;
      revert Hin; apply contains_char_not_In; reflexivity.
Qed.

(** C1. For every prefix [p] and text [v], [_emit_text p v] truncates [v] to
    its first 10240 characters [t] (a prefix of [v] of at most 10240
    characters, all of [v] when [v] is that short) and prints exactly one
    line: [p ++ "_B64:" ++] the base64 of the UTF-8 bytes of [t] when [t]
    holds a line feed or a carriage return, and [p ++ ":" ++ t] otherwise.
    It changes no state and raises nothing. *)
Theorem emit_text_encoding :
  forall (S : Type) (p v : pystr) (s : S),
    let t := firstn (Z.to_nat 10240) v in
    (exists rest, v = t ++ rest) /\
    List.length t = Nat.min (Z.to_nat 10240) (List.length v) /\
    (In LF t \/ In CR t ->
     _emit_text p v s =
       Returned tt s [p ++ lit "_B64:" ++ ascii_decode (b64encode (utf8_encode t))]) /\
    (~ In LF t /\ ~ In CR t ->
     _emit_text p v s = Returned tt s [p ++ lit ":" ++ t]).
Proof.
  intros S p v s t. split; [|split; [|split]].
  - apply truncate_prefix.
  - apply length_firstn.
  - intros H. apply has_line_break_true in H.
    rewrite emit_text_run. unfold protocol_line. fold t in H |- *.
    unfold truncate. fold t. now rewrite H.
  - intros H. apply has_line_break_false in H.
    rewrite emit_text_run. unfold protocol_line.
    unfold truncate. fold t. now rewrite H.
Qed.

Example emit_text_plain :
  printed (_emit_text (lit "CHANGED") (lit "hello world") tt)
  = [lit "CHANGED:hello world"].
Proof. reflexivity. Qed.

Example emit_text_multiline :
  printed (_emit_text (lit "INITIAL_VALUE") (lit "line1" ++ [LF] ++ lit "line2") tt)
  = [lit "INITIAL_VALUE_B64:bGluZTEKbGluZTI="].
Proof. reflexivity. Qed.

Lemma emit_text_encoding_witness :
  let v := lit "line1" ++ [LF] ++ lit "line2" in
  _emit_text (lit "INITIAL_VALUE") v tt
  = Returned tt tt [lit "INITIAL_VALUE_B64:bGluZTEKbGluZTI="]
  /\ _emit_text (lit "CHANGED") (lit "hello") tt
     = Returned tt tt [lit "CHANGED:hello"].
Proof.
  split.
  - apply (emit_text_encoding unit (lit "INITIAL_VALUE")
             (lit "line1" ++ [LF] ++ lit "line2") tt).
    left. apply contains_char_In. reflexivity.
  - apply (emit_text_encoding unit (lit "CHANGED") (lit "hello") tt).
    split; apply contains_char_not_In; reflexivity.
Defined.

(** ** Focus search *)

Lemma find_focused_unfold (frames : nat) (a : Accessible) :
  _find_focused frames a =
  try_outcome
    (state_set <~ get_state_set a ;;
     if contains state_set FOCUSED then Ok (Some a)
     else slots <~ get_children a ;; for_children frames slots)
    None.
Proof. destruct a; reflexivity. Qed.

Lemma elements_unfold (a : Accessible) :
  elements a =
  a :: match get_children a with Raise => [] | Ok slots => elements_of slots end.
Proof. destruct a; reflexivity. Qed.

Lemma visit_order_unfold (frames : nat) (a : Accessible) :
  visit_order frames a =
  a :: match get_state_set a, get_children a with
       | Ok _, Ok slots => visit_slots frames slots
       | _, _ => []
       end.
Proof. destruct a; reflexivity. Qed.

Lemma height_unfold (a : Accessible) :
  height a = match get_children a with Raise => O | Ok slots => height_of slots end.
Proof. destruct a; reflexivity. Qed.

(** Induction on a tree: the property holds of an element once it holds of
    every child its slots give. *)
Lemma Accessible_tree_ind (P : Accessible -> Prop) :
  (forall a,
      (forall slots, get_children a = Ok slots ->
                     Forall (fun sl : Slot => forall c, sl = Ok (Some c) -> P c) slots) ->
      P a) ->
  forall a, P a.
Proof.
  intros step. fix IH 1. intros a. apply step.
  destruct a as [n st ch ti]. simpl.
  destruct ch as [slots0|]; intros slots E; [|discriminate E].
  assert (Forall (fun sl : Slot => forall c, sl = Ok (Some c) -> P c) slots0) as F.
  { clear E. induction slots0 as [|sl rest IHr]; constructor.
    - destruct sl as [[c|]|]; intros c' E'; try discriminate E'.
      injection E' as <-. apply IH.
    - exact IHr. }
  now injection E as <-.
Qed.

Lemma find_app (A : Type) (f : A -> bool) (l1 l2 : list A) :
  find f (l1 ++ l2) =
  match find f l1 with Some x => Some x | None => find f l2 end.
Proof.
  induction l1 as [|x l1 IH]; simpl; [reflexivity|].
  now destruct (f x).
Qed.

Lemma for_children_visit (frames : nat) (slots : list Slot) :
  Forall (fun sl : Slot =>
            forall c, sl = Ok (Some c) ->
                      forall k, _find_focused k c
                                = find is_focused (visit_order k c)) slots ->
  try_outcome (for_children frames slots) None
  = find is_focused (visit_slots frames slots).
Proof.
  induction 1 as [|sl rest Hsl _ IH]; [reflexivity|].
  destruct sl as [[c|]|]; simpl; [|exact IH|reflexivity].
  destruct frames as [|deeper]; [reflexivity|]. simpl.
  rewrite find_app, <- (Hsl c eq_refl deeper).
  destruct (_find_focused deeper c); [reflexivity | exact IH].
Qed.

Lemma find_focused_visit (frames : nat) (a : Accessible) :
  _find_focused frames a = find is_focused (visit_order frames a).
Proof.
  revert frames. induction a as [a IH] using Accessible_tree_ind. intros frames.
  rewrite find_focused_unfold, visit_order_unfold. simpl. unfold is_focused.
  destruct (get_state_set a) as [ss|]; [|reflexivity].
  destruct (contains ss FOCUSED); [reflexivity|].
  destruct (get_children a) as [slots|]; [|reflexivity].
  apply for_children_visit. now apply IH.
Qed.

Lemma for_apps_first_some (frames : nat) (d : list Slot) :
  for_apps frames d =
  match frames with
  | O => None
  | S deeper => first_some (_find_focused deeper) (desktop_apps d)
  end.
Proof.
  induction d as [|sl rest IH]; [now destruct frames|].
  destruct sl as [[app|]|]; simpl; try exact IH.
  destruct frames as [|deeper]; simpl; [exact IH|].
  destruct (_find_focused deeper app); [reflexivity | exact IH].
Qed.

Lemma visit_slots_error_free (frames : nat) (slots : list Slot) :
  Forall (fun sl : Slot =>
            forall c, sl = Ok (Some c) ->
                      forall k, error_free c = true -> (height c <= k)%nat ->
                                visit_order k c = elements c) slots ->
  forallb (fun sl : Slot => match sl with Ok _ => true | Raise => false end) slots = true ->
  forallb queries_ok (elements_of slots) = true ->
  (height_of slots <= frames)%nat ->
  visit_slots frames slots = elements_of slots.
Proof.
  induction 1 as [|sl rest Hsl _ IH]; [reflexivity|].
  destruct sl as [[c|]|]; cbn [forallb elements_of height_of andb visit_slots];
    intros Hok Hfree Hh; try discriminate Hok.
  - rewrite forallb_app in Hfree. apply andb_true_iff in Hfree as [Hc Hrest].
    destruct frames as [|deeper]; [lia|].
    rewrite (Hsl c eq_refl deeper Hc) by lia. f_equal. apply IH; auto. lia.
  - now apply IH.
Qed.

Lemma visit_order_error_free (frames : nat) (a : Accessible) :
  error_free a = true -> (height a <= frames)%nat ->
  visit_order frames a = elements a.
Proof.
  revert frames. induction a as [a IH] using Accessible_tree_ind. intros frames.
  unfold error_free. rewrite elements_unfold, visit_order_unfold, height_unfold.
  simpl. intros H Hh. apply andb_true_iff in H as [Hq Hsub]. f_equal.
  unfold queries_ok in Hq.
  destruct (get_state_set a) as [ss|]; [|discriminate Hq].
  destruct (get_children a) as [slots|]; [|discriminate Hq].
  apply visit_slots_error_free; auto.
Qed.




Example find_focused_broken_desktop :
  for_apps 1000 broken_desktop = Some (text_field 7 [FOCUSED] (lit "hello")).
Proof. reflexivity. Qed.

(** ** Errors during the search *)





(** ** The process *)

Lemma after_nil (S A : Type) (r : Res S A) : after [] r = r.
Proof. now destruct r. Qed.

Lemma after_after (S A : Type) (o1 o2 : list pystr) (r : Res S A) :
  after o1 (after o2 r) = after (o1 ++ o2) r.
Proof. destruct r; simpl; now rewrite app_assoc. Qed.

Lemma printed_after (S A : Type) (o : list pystr) (r : Res S A) :
  printed (after o r) = o ++ printed r.
Proof. now destruct r. Qed.

Lemma state_of_after (S A : Type) (o : list pystr) (r : Res S A) :
  state_of (after o r) = state_of r.
Proof. now destruct r. Qed.

Lemma observe_after (S A : Type) (o : list pystr) (r : Res S A) :
  observe (after o r) =
  {| stdout := o ++ stdout (observe r); exit_status := exit_status (observe r) |}.
Proof. destruct r as [a s o'|[| |n] s o'|s o']; reflexivity. Qed.

Lemma stdout_observe (S A : Type) (r : Res S A) : stdout (observe r) = printed r.
Proof. destruct r as [a s o'|[| |n] s o'|s o']; reflexivity. Qed.

Lemma get_text_run (ti : TextIface) :
  count_raises ti = false -> read_raises ti = false ->
  get_character_count ti = Ok (len (text ti)) /\
  get_text ti 0 (Z.min (len (text ti)) MAX_OUTPUT_CHARS) = Ok (truncate (text ti)).
Proof.
  intros Hc Hr. unfold get_character_count, get_text. rewrite Hc, Hr.
  now rewrite slice_min_truncate.
Qed.

Lemma read_text_some (a : Accessible) (v : pystr) :
  read_text a = Some v <->
  exists ti, get_text_iface a = Ok (Some ti) /\ count_raises ti = false /\
             read_raises ti = false /\ v = truncate (text ti).
Proof.
  unfold read_text. split.
  - destruct (get_text_iface a) as [[ti|]|]; try discriminate.
    destruct (count_raises ti) eqn:Hc, (read_raises ti) eqn:Hr; try discriminate.
    simpl. intros [= <-]. now exists ti.
  - intros [ti [-> [-> [-> ->]]]]. reflexivity.
Qed.

Ltac py_unfold :=
  cbv beta iota delta
      [bind ret call raise sys_exit print get put modify wait
       try_except try_except_interrupt after timer_start].

(** The handler, in one equation. *)
Lemma on_text_changed_run (event : Event) (w : World) :
  on_text_changed event w =
  match read_text (source event) with
  | None => Returned tt w []
  | Some v =>
      if pystr_eqb v (last_value w) then Returned tt w []
      else Returned tt (set_last_value v w) [protocol_line (lit "CHANGED") v]
  end.
Proof.
  unfold on_text_changed, read_text.
  pose proof (emit_text_run World (lit "CHANGED")) as Hemit.
  py_unfold.
  destruct (get_text_iface (source event)) as [[ti|]|]; try reflexivity.
  unfold get_character_count, get_text.
  destruct (count_raises ti); [reflexivity|].
  destruct (read_raises ti); [reflexivity|]. simpl orb. cbv iota.
  rewrite slice_min_truncate.
  destruct (pystr_eqb (truncate (text ti)) (last_value w)); [reflexivity|].
  simpl negb. cbv iota. rewrite Hemit. reflexivity.
Qed.

(** [main], in one equation. *)
Lemma main_run (env : Env) (events : list LoopEvent) (w : World) :
  main env events w =
  if negb (HAS_ATSPI env) then Raised (SystemExit 1) w [NO_ELEMENT]
  else if negb (startup_returns env) then Raised Exception w []
  else
    match for_apps (recursion_limit env) (desktop env) with
    | None => Raised (SystemExit 1) w [NO_ELEMENT]
    | Some focused =>
        match read_text focused with
        | None => Raised (SystemExit 0) w [NO_VALUE]
        | Some v =>
            after [protocol_line (lit "INITIAL_VALUE") v]
                  (watch_phase env events (set_last_value v w))
        end
    end.
Proof.
  unfold main, read_text, watch_phase, run_until_stopped.
  unfold startup_returns, setup_returns, timer_armed, returns.
  pose proof (emit_text_run World (lit "INITIAL_VALUE")) as Hemit.
  py_unfold.
  destruct (stdin_line env); cbv iota beta;
    (destruct (HAS_ATSPI env); cbv beta iota delta [negb]; [|reflexivity]);
    (destruct (atspi_init (unguarded env)) as [[]|]; [|reflexivity]);
    (destruct (atspi_get_desktop (unguarded env)) as [[]|]; [|reflexivity]);
    (destruct (desktop_get_child_count (unguarded env)) as [[]|]; [|reflexivity]);
    cbv beta iota delta [andb negb];
    (destruct (for_apps (recursion_limit env) (desktop env)) as [focused|];
     [|reflexivity]);
    (destruct (get_text_iface focused) as [[ti|]|]; try reflexivity);
    unfold get_character_count, get_text;
    (destruct (count_raises ti); [reflexivity|]);
    (destruct (read_raises ti); [reflexivity|]);
    cbv beta iota delta [orb];
    rewrite slice_min_truncate, Hemit; cbv iota beta;
    (destruct (main_loop_new (unguarded env)) as [[]|]; [|reflexivity]);
    (destruct (register_insert (unguarded env)) as [[]|]; [|reflexivity]);
    (destruct (register_delete (unguarded env)) as [[]|]; [|reflexivity]);
    (destruct (timer_thread_start (unguarded env)) as [[]|]; [|reflexivity]);
    (destruct (signal_sigterm (unguarded env)) as [[]|]; [|reflexivity]);
    (destruct (signal_sigint (unguarded env)) as [[]|]; [|reflexivity]);
    cbv beta iota delta [andb];
    match goal with
    | |- context [loop_run events ?w0] =>
        destruct (loop_run events w0) as [[] s o|[| |n] s o|s o]
    end; simpl; try reflexivity;
    unfold timer_cancel; py_unfold; destruct (timer s); simpl;
    rewrite ?app_nil_r; reflexivity.
Qed.

(** [main] where every call outside a [try] returns. *)
Lemma main_run_started (env : Env) (events : list LoopEvent) (w : World) :
  startup_returns env = true -> setup_returns env = true ->
  main env events w =
  if negb (HAS_ATSPI env) then Raised (SystemExit 1) w [NO_ELEMENT]
  else
    match for_apps (recursion_limit env) (desktop env) with
    | None => Raised (SystemExit 1) w [NO_ELEMENT]
    | Some focused =>
        match read_text focused with
        | None => Raised (SystemExit 0) w [NO_VALUE]
        | Some v =>
            after [protocol_line (lit "INITIAL_VALUE") v]
                  (run_until_stopped events (watching_from v w))
        end
    end.
Proof.
  intros H1 H2. rewrite main_run. unfold watch_phase, watching_from.
  now rewrite H1, H2.
Qed.

(** ** The run loop *)

Lemma finish_after (o : list pystr) (r : Res World unit) :
  finish (after o r) = after o (finish r).
Proof.
  destruct r as [a s o'|[| |n] s o'|s o']; simpl;
    rewrite ?after_after; reflexivity.
Qed.

Lemma run_until_stopped_finish (events : list LoopEvent) (w : World) :
  run_until_stopped events w =
  finish (loop_iterate events (set_loop_running true w)).
Proof.
  unfold run_until_stopped, loop_run, finish. py_unfold.
  destruct (loop_iterate events (set_loop_running true w))
    as [[] s o|[| |n] s o|s o]; simpl; try reflexivity;
    destruct (timer_cancel s); simpl; rewrite ?app_nil_r; reflexivity.
Qed.

Lemma timer_cancel_run (w : World) :
  timer_cancel w =
  Returned tt (match timer w with Pending => set_timer Cancelled w | _ => w end) [].
Proof. unfold timer_cancel. py_unfold. now destruct (timer w). Qed.

Lemma loop_quit_run (w : World) :
  loop_quit w = Returned tt (set_loop_running false w) [].
Proof. reflexivity. Qed.

(** The handler always returns, prints at most one line, and touches
    nothing but [last_value]. *)
Lemma on_text_changed_returns (event : Event) (w : World) :
  exists w' o,
    on_text_changed event w = Returned tt w' o /\
    loop_running w' = loop_running w /\ timer w' = timer w /\
    (List.length o <= 1)%nat /\
    (bounded w -> bounded w').
Proof.
  rewrite on_text_changed_run.
  destruct (read_text (source event)) as [v|] eqn:Hread.
  - destruct (pystr_eqb v (last_value w)).
    + exists w, []. repeat split; auto.
    + exists (set_last_value v w), [protocol_line (lit "CHANGED") v].
      repeat split; auto. intros _.
      apply read_text_some in Hread as [ti [_ [_ [_ ->]]]].
      apply truncate_length.
  - exists w, []. repeat split; auto.
Qed.

Lemma loop_iterate_text (event : Event) (rest : list LoopEvent) (w : World) :
  loop_running w = true ->
  loop_iterate (TextChanged event :: rest) w =
  after (printed (on_text_changed event w))
        (loop_iterate rest (state_of (on_text_changed event w))).
Proof.
  intros Hrun.
  destruct (on_text_changed_returns event w) as [w' [o [E [Hr _]]]].
  simpl. unfold bind at 1. simpl. rewrite E. simpl.
  unfold bind at 1. simpl. rewrite Hr, Hrun.
  now rewrite after_nil.
Qed.

Lemma loop_iterate_stop (e : LoopEvent) (rest : list LoopEvent) (w : World) :
  timer w = Pending -> stops e = true ->
  finish (loop_iterate (e :: rest) w) =
  Returned tt
    (match e with
     | TimerElapsed => set_loop_running false (set_timer Fired w)
     | Signal _ => set_timer Cancelled (set_loop_running false w)
     | _ => set_timer Cancelled w
     end) [].
Proof.
  intros Ht Hs. destruct e as [event| |signum|]; try discriminate Hs;
    simpl; py_unfold; rewrite ?Ht; simpl; rewrite ?timer_cancel_run; simpl;
    rewrite ?Ht; reflexivity.
Qed.

(** A loop that is still waiting after some events still runs with its
    timer pending, and goes on from there with whatever comes next. *)
Lemma loop_iterate_waiting (pre : list LoopEvent) :
  forall (w0 w : World) (o : list pystr),
    loop_running w0 = true -> timer w0 = Pending ->
    loop_iterate pre w0 = Waiting w o ->
    loop_running w = true /\ timer w = Pending /\
    (bounded w0 -> bounded w) /\
    forall more, loop_iterate (pre ++ more) w0 = after o (loop_iterate more w).
Proof.
  induction pre as [|e pre IH]; intros w0 w o Hrun Ht H.
  - injection H as <- <-. repeat split; auto.
    intros more. now rewrite after_nil.
  - destruct e as [event| |signum|].
    + rewrite loop_iterate_text in H by assumption.
      destruct (on_text_changed_returns event w0) as [w1 [o1 [E [Hr [Ht1 [_ Hb]]]]]].
      rewrite E in H. simpl in H.
      destruct (loop_iterate pre w1) as [a s o2|x s o2|s o2] eqn:El;
        try discriminate H.
      injection H as <- <-.
      destruct (IH w1 s o2) as [H1 [H2 [H3 H4]]]; try congruence.
      repeat split; auto.
      intros more. simpl app. rewrite loop_iterate_text by assumption.
      rewrite E. simpl. now rewrite H4, after_after.
    + exfalso. revert H. simpl. py_unfold. rewrite Ht. simpl. discriminate.
    + exfalso. revert H. simpl. py_unfold. simpl. discriminate.
    + exfalso. revert H. simpl. py_unfold. discriminate.
Qed.

(** Text events alone leave the loop waiting. *)
Lemma loop_iterate_text_only (pre : list LoopEvent) :
  forall w0 : World,
    loop_running w0 = true ->
    forallb (fun e => negb (stops e)) pre = true ->
    exists w o, loop_iterate pre w0 = Waiting w o.
Proof.
  induction pre as [|e pre IH]; intros w0 Hrun Hpre.
  - now exists w0, [].
  - simpl in Hpre. apply andb_true_iff in Hpre as [He Hpre].
    destruct e as [event| |signum|]; try discriminate He.
    rewrite loop_iterate_text by assumption.
    destruct (on_text_changed_returns event w0) as [w1 [o1 [E [Hr _]]]].
    rewrite E. simpl.
    destruct (IH w1) as [w [o Hw]]; try congruence.
    exists w, (o1 ++ o). now rewrite Hw.
Qed.

(** The loop, once entered, either waits or has been stopped and [main]
    returns: no exception leaves it. *)
Lemma loop_waits_or_returns (events : list LoopEvent) :
  forall w : World,
    loop_running w = true -> timer w = Pending ->
    (exists w' o, finish (loop_iterate events w) = Waiting w' o) \/
    (exists w' o, finish (loop_iterate events w) = Returned tt w' o).
Proof.
  induction events as [|e rest IH]; intros w Hrun Ht.
  - left. now exists w, [].
  - destruct (stops e) eqn:Hs.
    + right. rewrite (loop_iterate_stop e rest w Ht Hs). eauto.
    + destruct e as [event| | |]; try discriminate Hs.
      rewrite loop_iterate_text by assumption.
      destruct (on_text_changed_returns event w) as [w1 [o1 [E [Hr [Ht1 _]]]]].
      rewrite E, finish_after. simpl.
      destruct (IH w1) as [[w' [o H]] | [w' [o H]]]; try congruence;
        rewrite H; simpl; eauto.
Qed.

(** [main] ends in one of five ways: it waits in the loop, it returns, it
    leaves through [sys.exit] with status 0 or 1, or a call outside any
    [try] has raised, before anything was printed or after the initial
    line. *)
Lemma main_ends (env : Env) (events : list LoopEvent) :
  match main env events boot with
  | Returned _ _ _ | Waiting _ _ => True
  | Raised (SystemExit n) _ _ => n = 0 \/ n = 1
  | Raised Exception _ o =>
      o = [] \/ exists v, o = [protocol_line (lit "INITIAL_VALUE") v]
  | Raised KeyboardInterrupt _ _ => False
  end.
Proof.
  rewrite main_run.
  destruct (HAS_ATSPI env); simpl; [|now right].
  destruct (startup_returns env); simpl; [|now left].
  destruct (for_apps (recursion_limit env) (desktop env)) as [focused|]; [|now right].
  destruct (read_text focused) as [v|]; [|now left].
  unfold watch_phase. destruct (setup_returns env); [|right; now exists v].
  rewrite run_until_stopped_finish.
  destruct (loop_waits_or_returns events
              (set_loop_running true (watching_from v boot)) eq_refl eq_refl)
    as [[w' [o H]] | [w' [o H]]]; unfold watching_from in H; rewrite H; exact I.
Qed.

(** ** Startup *)

Lemma visit_order_incl (frames : nat) (a : Accessible) :
  incl (visit_order frames a) (elements a).
Proof.
  revert frames. induction a as [a IH] using Accessible_tree_ind. intros frames.
  rewrite visit_order_unfold, elements_unfold.
  apply incl_cons; [now left|]. apply incl_tl.
  destruct (get_state_set a) as [ss|]; [|apply incl_nil_l].
  destruct (get_children a) as [slots|]; [|apply incl_nil_l].
  specialize (IH slots eq_refl).
  induction IH as [|sl rest Hsl _ IHrest]; [apply incl_nil_l|].
  destruct sl as [[c|]|]; cbn [visit_slots elements_of]; try assumption;
    [|apply incl_nil_l].
  destruct frames as [|deeper]; [apply incl_nil_l|].
  apply incl_app; [apply incl_appl | apply incl_appr]; auto.
Qed.

Lemma find_none_all (A : Type) (f : A -> bool) (l : list A) :
  (forall x, In x l -> f x = false) -> find f l = None.
Proof.
  induction l as [|x l IH]; intros H; [reflexivity|]. simpl.
  rewrite (H x) by now left. apply IH. intros y Hy. apply H. now right.
Qed.

Lemma filter_nil_all (A : Type) (f : A -> bool) (l : list A) :
  filter f l = [] -> forall x, In x l -> f x = false.
Proof.
  intros H x Hx. destruct (f x) eqn:E; [|reflexivity].
  assert (In x (filter f l)) as Hin by (apply filter_In; now split).
  rewrite H in Hin. destruct Hin.
Qed.

Lemma for_apps_none (frames : nat) (d : list Slot) :
  filter is_focused (desktop_elements d) = [] -> for_apps frames d = None.
Proof.
  intros H. pose proof (filter_nil_all _ _ _ H) as Hall. clear H.
  rewrite for_apps_first_some. destruct frames as [|deeper]; [reflexivity|].
  unfold desktop_elements in Hall.
  induction (desktop_apps d) as [|app apps IH]; [reflexivity|]. simpl.
  rewrite find_focused_visit, find_none_all.
  - apply IH. intros x Hx. apply Hall. simpl. apply in_or_app. now right.
  - intros x Hx. apply Hall. simpl. apply in_or_app. left.
    exact (visit_order_incl deeper app x Hx).
Qed.

(** C5. On a desktop none of whose elements is focused (an empty desktop
    among them) the watcher prints the one line NO_ELEMENT and exits with
    status 1, whatever events are pending and however deep the search may
    nest.  The desktop is one the layer, when it is there, hands over:
    initialising it, getting the desktop and counting its children return. *)
Theorem no_focused_element_exit :
  forall (env : Env) (events : list LoopEvent),
    (HAS_ATSPI env = true -> startup_returns env = true) ->
    filter is_focused (desktop_elements (desktop env)) = [] ->
    run env events = {| stdout := [NO_ELEMENT]; exit_status := Some 1 |}.
Proof.
  intros env events Hstart H. unfold run. rewrite main_run.
  rewrite (for_apps_none _ _ H).
  destruct (HAS_ATSPI env); [|reflexivity]. now rewrite Hstart.
Qed.

Lemma no_focused_element_exit_witness :
  run (session []) [Signal SIGTERM]
  = {| stdout := [lit "NO_ELEMENT"]; exit_status := Some 1 |}
  /\ run (session [Ok (Some (container 1 [text_field 2 [VISIBLE] (lit "a")]))]) []
     = {| stdout := [lit "NO_ELEMENT"]; exit_status := Some 1 |}.
Proof.
  split.
  - apply (no_focused_element_exit (session []) [Signal SIGTERM]); reflexivity.
  - apply (no_focused_element_exit
             (session [Ok (Some (container 1 [text_field 2 [VISIBLE] (lit "a")]))]) []);
      reflexivity.
Defined.

(** C6. When a focused element is found (the layer is there, the calls
    that lead to the search return, and the search gives the element) and
    it has no text interface, or asking for the interface raises, or the
    first read of the text raises (the character count or the text itself),
    the watcher prints the one line NO_VALUE and exits with status 0. *)
Theorem no_text_value_exit :
  forall (env : Env) (events : list LoopEvent) (focused : Accessible),
    HAS_ATSPI env = true ->
    startup_returns env = true ->
    for_apps (recursion_limit env) (desktop env) = Some focused ->
    (get_text_iface focused = Ok None \/
     get_text_iface focused = Raise \/
     exists ti, get_text_iface focused = Ok (Some ti) /\
                (count_raises ti = true \/ read_raises ti = true)) ->
    run env events = {| stdout := [NO_VALUE]; exit_status := Some 0 |}.
Proof.
  intros env events focused Hatspi Hstart Hfound Hno.
  unfold run. rewrite main_run, Hatspi, Hstart, Hfound. simpl negb. cbv iota.
  assert (read_text focused = None) as ->; [|reflexivity].
  unfold read_text.
  destruct Hno as [-> | [-> | [ti [-> [-> | ->]]]]]; try reflexivity.
  now rewrite orb_true_r.
Qed.

Lemma no_text_value_exit_witness :
  run (session [Ok (Some (container 1 [Element 2 (Ok [FOCUSED]) (Ok []) (Ok None)]))])
      [edit (lit "x")]
  = {| stdout := [lit "NO_VALUE"]; exit_status := Some 0 |}
  /\ run (session [Ok (Some (Element 2 (Ok [FOCUSED]) Raise
                       (Ok (Some {| text := lit "gone"; count_raises := false;
                                    read_raises := true |}))))]) []
     = {| stdout := [lit "NO_VALUE"]; exit_status := Some 0 |}.
Proof.
  split.
  - apply (no_text_value_exit
             (session [Ok (Some (container 1 [Element 2 (Ok [FOCUSED]) (Ok []) (Ok None)]))])
             [edit (lit "x")] (Element 2 (Ok [FOCUSED]) (Ok []) (Ok None)));
      try reflexivity.
    now left.
  - apply (no_text_value_exit
             (session [Ok (Some (Element 2 (Ok [FOCUSED]) Raise
                       (Ok (Some {| text := lit "gone"; count_raises := false;
                                    read_raises := true |}))))]) []
             (Element 2 (Ok [FOCUSED]) Raise
                       (Ok (Some {| text := lit "gone"; count_raises := false;
                                    read_raises := true |}))));
      try reflexivity.
    right. right. eexists. split; [reflexivity|]. now right.
Defined.

(** C8. Without the accessibility layer ([HAS_ATSPI] false) the watcher
    prints NO_ELEMENT and exits with status 1 at once: the result is the
    same for every desktop and every pending event, no element is asked
    anything. *)
Theorem no_atspi_exit :
  forall (env : Env) (events : list LoopEvent),
    HAS_ATSPI env = false ->
    run env events = {| stdout := [NO_ELEMENT]; exit_status := Some 1 |}.
Proof.
  intros env events H. unfold run. rewrite main_run, H. reflexivity.
Qed.

Lemma no_atspi_exit_witness :
  run {| stdin_line := Raise; HAS_ATSPI := false; recursion_limit := 1000;
         unguarded := unguarded no_registry; desktop := hello_desktop |}
      [edit (lit "hello world")]
  = {| stdout := [lit "NO_ELEMENT"]; exit_status := Some 1 |}.
Proof.
  apply (no_atspi_exit
           {| stdin_line := Raise; HAS_ATSPI := false; recursion_limit := 1000;
              unguarded := unguarded no_registry; desktop := hello_desktop |}
           [edit (lit "hello world")]).
  reflexivity.
Defined.

(** ** The initial value *)

Lemma In_truncate (c : uchar) (s : pystr) : In c (truncate s) -> In c s.
Proof.
  destruct (truncate_prefix s) as [rest E]. intros H.
  rewrite E. apply in_or_app. now left.
Qed.

Lemma strip_initial_tag (v : pystr) : strip_tag (lit "INITIAL_VALUE:" ++ v) = v.
Proof. reflexivity. Qed.

Lemma initial_line (env : Env) (events : list LoopEvent) (focused : Accessible)
      (ti : TextIface) :
  HAS_ATSPI env = true ->
  startup_returns env = true ->
  for_apps (recursion_limit env) (desktop env) = Some focused ->
  get_text_iface focused = Ok (Some ti) ->
  count_raises ti = false -> read_raises ti = false ->
  exists more,
    stdout (run env events)
    = protocol_line (lit "INITIAL_VALUE") (text ti) :: more.
Proof.
  intros Hatspi Hstart Hfound Hti Hc Hr. unfold run.
  rewrite main_run, Hatspi, Hstart, Hfound. simpl negb. cbv iota.
  assert (read_text focused = Some (truncate (text ti))) as ->.
  { apply read_text_some. now exists ti. }
  rewrite observe_after. cbn [stdout app].
  unfold protocol_line. rewrite truncate_idem. eauto.
Qed.

(** C7, as the claim has it, fails on a text of 10241 letters: the field is
    focused, its text holds no line break, and the line printed is not
    INITIAL_VALUE: followed by the text. *)
Lemma initial_value_verbatim_counterexample :
  ~ In LF long_text /\ ~ In CR long_text /\
  for_apps (recursion_limit long_session) (desktop long_session)
  = Some (text_field 7 [FOCUSED] long_text) /\
  stdout (run long_session []) <> [lit "INITIAL_VALUE:" ++ long_text] /\
  strip_tag (hd [] (stdout (run long_session []))) <> long_text.
Proof.
  split; [apply contains_char_not_In; vm_compute; reflexivity|].
  split; [apply contains_char_not_In; vm_compute; reflexivity|].
  split; [reflexivity|].
  split; intros H.
  - apply (f_equal (fun l => List.length (hd [] l))) in H.
    vm_compute in H. discriminate H.
  - apply (f_equal (@List.length uchar)) in H.
    vm_compute in H. discriminate H.
Qed.

(** C7, amended. For a focused field whose text [v] holds no line feed and
    no carriage return, the first line printed is INITIAL_VALUE: followed by
    the first 10240 characters of [v], unchanged; when [v] has at most 10240
    characters that line is INITIAL_VALUE: followed by [v], and dropping the
    tag gives back [v].  The field is the one the search gives, the calls
    that lead to the search having returned. *)
Theorem initial_value_verbatim :
  forall (env : Env) (events : list LoopEvent) (focused : Accessible)
         (ti : TextIface),
    HAS_ATSPI env = true ->
    startup_returns env = true ->
    for_apps (recursion_limit env) (desktop env) = Some focused ->
    get_text_iface focused = Ok (Some ti) ->
    count_raises ti = false -> read_raises ti = false ->
    ~ In LF (text ti) -> ~ In CR (text ti) ->
    exists line more,
      stdout (run env events) = line :: more /\
      line = lit "INITIAL_VALUE:" ++ firstn (Z.to_nat 10240) (text ti) /\
      ((List.length (text ti) <= Z.to_nat 10240)%nat ->
       line = lit "INITIAL_VALUE:" ++ text ti /\ strip_tag line = text ti).
Proof.
  intros env events focused ti Hatspi Hstart Hfound Hti Hc Hr Hlf Hcr.
  destruct (initial_line env events focused ti) as [more E]; auto.
  exists (protocol_line (lit "INITIAL_VALUE") (text ti)), more.
  split; [exact E|].
  assert (protocol_line (lit "INITIAL_VALUE") (text ti)
          = lit "INITIAL_VALUE:" ++ truncate (text ti)) as ->.
  { unfold protocol_line.
    assert (has_line_break (truncate (text ti)) = false) as ->; [|reflexivity].
    apply has_line_break_false. split; intros H; apply In_truncate in H; auto. }
  split; [reflexivity|].
  intros Hlen. rewrite (truncate_short _ Hlen). split; [reflexivity|].
  apply strip_initial_tag.
Qed.

Lemma initial_value_verbatim_witness :
  exists line more,
    stdout (run (session hello_desktop) [edit (lit "hello world")]) = line :: more /\
    line = lit "INITIAL_VALUE:hello" /\
    strip_tag line = lit "hello".
Proof.
  destruct (initial_value_verbatim (session hello_desktop) [edit (lit "hello world")]
              (text_field 7 [VISIBLE; FOCUSED] (lit "hello"))
              {| text := lit "hello"; count_raises := false; read_raises := false |})
    as [line [more [E [Hline Hshort]]]]; try reflexivity.
  - apply contains_char_not_In. reflexivity.
  - apply contains_char_not_In. reflexivity.
  - exists line, more. split; [exact E|].
    destruct Hshort as [H1 H2]; [vm_compute; lia|].
    split; [exact H1 | exact H2].
Defined.

(** ** Change detection *)

Lemma changed_line_tag (v : pystr) :
  protocol_line (lit "CHANGED") v = lit "CHANGED:" ++ truncate v \/
  protocol_line (lit "CHANGED") v
  = lit "CHANGED_B64:" ++ ascii_decode (b64encode (utf8_encode (truncate v))).
Proof.
  unfold protocol_line. destruct (has_line_break (truncate v)); [right | left];
    reflexivity.
Qed.

(** C2. For an event whose source has a text interface that can be read,
    the handler reads the first 10240 characters [v] of the text and
    compares them with [last_value]: when they are equal it prints nothing
    and leaves the state as it is; when they differ it stores [v] in
    [last_value] and prints exactly one line, tagged CHANGED or CHANGED_B64.
    A second event that reads the same [v] right after prints nothing, so
    that the two together print at most one line. *)
Theorem change_handler_deduplicates :
  forall (event : Event) (ti : TextIface) (w : World),
    get_text_iface (source event) = Ok (Some ti) ->
    count_raises ti = false -> read_raises ti = false ->
    let v := firstn (Z.to_nat 10240) (text ti) in
    (v = last_value w -> on_text_changed event w = Returned tt w []) /\
    (v <> last_value w ->
     exists line,
       on_text_changed event w = Returned tt (set_last_value v w) [line] /\
       (line = lit "CHANGED:" ++ v \/
        line = lit "CHANGED_B64:" ++ ascii_decode (b64encode (utf8_encode v)))) /\
    (forall (event2 : Event) (ti2 : TextIface),
        get_text_iface (source event2) = Ok (Some ti2) ->
        count_raises ti2 = false -> read_raises ti2 = false ->
        firstn (Z.to_nat 10240) (text ti2) = v ->
        on_text_changed event2 (state_of (on_text_changed event w))
        = Returned tt (state_of (on_text_changed event w)) [] /\
        (List.length (printed ((on_text_changed event ;; on_text_changed event2) w))
         <= 1)%nat).
Proof.
  intros event ti w Hti Hc Hr v.
  assert (read_text (source event) = Some v) as Hread.
  { apply read_text_some. now exists ti. }
  assert (forall w', last_value w' = v ->
                     forall event2 ti2,
                       get_text_iface (source event2) = Ok (Some ti2) ->
                       count_raises ti2 = false -> read_raises ti2 = false ->
                       firstn (Z.to_nat 10240) (text ti2) = v ->
                       on_text_changed event2 w' = Returned tt w' []) as Hsecond.
  { intros w' Hw' event2 ti2 Hti2 Hc2 Hr2 Hv2.
    rewrite on_text_changed_run.
    assert (read_text (source event2) = Some v) as ->.
    { apply read_text_some. exists ti2. now rewrite <- Hv2. }
    now rewrite Hw', pystr_eqb_refl. }
  rewrite on_text_changed_run, Hread.
  destruct (pystr_eqb v (last_value w)) eqn:Heq.
  - apply pystr_eqb_eq in Heq. split; [reflexivity|]. split; [congruence|].
    intros event2 ti2 Hti2 Hc2 Hr2 Hv2. simpl state_of.
    pose proof (Hsecond w (eq_sym Heq) event2 ti2 Hti2 Hc2 Hr2 Hv2) as E2.
    split; [exact E2|]. unfold bind.
    rewrite on_text_changed_run, Hread, <- Heq, pystr_eqb_refl, E2. simpl. lia.
  - apply pystr_eqb_neq in Heq. split; [congruence|]. split.
    + intros _. exists (protocol_line (lit "CHANGED") v). split; [reflexivity|].
      replace v with (truncate v) at 2 4 by apply truncate_idem.
      apply changed_line_tag.
    + intros event2 ti2 Hti2 Hc2 Hr2 Hv2. simpl state_of.
      pose proof (Hsecond (set_last_value v w) eq_refl event2 ti2 Hti2 Hc2 Hr2 Hv2)
        as E2.
      split; [exact E2|]. unfold bind.
      rewrite on_text_changed_run, Hread.
      apply pystr_eqb_neq in Heq. rewrite Heq, E2. simpl. lia.
Qed.

Example hello_world_scenario :
  run (session hello_desktop)
      [edit (lit "hello world"); edit (lit "hello world"); Signal SIGTERM;
       edit (lit "late")]
  = {| stdout := [lit "INITIAL_VALUE:hello"; lit "CHANGED:hello world"];
       exit_status := Some 0 |}.
Proof. reflexivity. Qed.

Lemma change_handler_deduplicates_witness :
  let w := {| last_value := lit "hello"; loop_running := true; timer := Pending |} in
  let event := {| detail := Insert;
                  source := text_field 7 [FOCUSED] (lit "hello world") |} in
  on_text_changed event w
  = Returned tt (set_last_value (lit "hello world") w) [lit "CHANGED:hello world"]
  /\ (List.length (printed ((on_text_changed event ;; on_text_changed event) w))
      <= 1)%nat.
Proof.
  intros w event.
  destruct (change_handler_deduplicates event
              {| text := lit "hello world"; count_raises := false;
                 read_raises := false |} w eq_refl eq_refl eq_refl)
    as [_ [Hdiff Hnext]].
  split.
  - reflexivity.
  - apply (Hnext event {| text := lit "hello world"; count_raises := false;
                          read_raises := false |}); reflexivity.
Defined.

Lemma read_text_with_text (a : Accessible) (t1 t2 : pystr) :
  truncate t1 = truncate t2 ->
  read_text (with_text a t1) = read_text (with_text a t2).
Proof.
  intros H. destruct a as [n st ch [[ti|]|]]; try reflexivity.
  unfold read_text. simpl. now rewrite H.
Qed.

(** A process still waiting after some events has found a text and sits in
    the loop with it. *)
Lemma run_waiting (env : Env) (pre : list LoopEvent) :
  exit_status (run env pre) = None ->
  exists v w o,
    (forall events,
        main env events boot
        = after [protocol_line (lit "INITIAL_VALUE") v]
                (finish (loop_iterate events
                           (set_loop_running true (watching_from v boot))))) /\
    loop_iterate pre (set_loop_running true (watching_from v boot)) = Waiting w o /\
    bounded (watching_from v boot).
Proof.
  unfold run. rewrite main_run.
  destruct (HAS_ATSPI env) eqn:Hatspi; [|discriminate]. simpl negb. cbv iota.
  destruct (startup_returns env) eqn:Hstart; [|discriminate]. simpl negb. cbv iota.
  destruct (for_apps (recursion_limit env) (desktop env)) as [focused|] eqn:Hfound;
    [|discriminate].
  destruct (read_text focused) as [v|] eqn:Hread; [|discriminate].
  rewrite observe_after. unfold watch_phase.
  destruct (setup_returns env) eqn:Hsetup; [|discriminate].
  change (set_timer Pending (set_last_value v boot)) with (watching_from v boot).
  rewrite run_until_stopped_finish. simpl exit_status.
  intros H.
  destruct (loop_iterate pre (set_loop_running true (watching_from v boot)))
    as [a s o|e s o|s o] eqn:El.
  - simpl in H. rewrite timer_cancel_run in H. discriminate H.
  - destruct e; simpl in H; try discriminate H.
    rewrite timer_cancel_run in H. discriminate H.
  - exists v, s, o. split; [|split; [exact El|]].
    + intros events.
      rewrite (main_run_started env events boot Hstart Hsetup), Hatspi, Hfound, Hread.
      now rewrite run_until_stopped_finish.
    + apply read_text_some in Hread as [ti [_ [_ [_ ->]]]].
      apply truncate_length.
Qed.

(** C10. The handler sees nothing past the first 10240 characters: on the
    same element holding two texts that agree on their first 10240
    characters it does the same thing in every state, output and
    [last_value] alike.  And when the watcher waits after any events and a
    further event brings a text that agrees with [last_value] on the first
    10240 characters, nothing is printed and the state stays as it is,
    however the texts differ beyond. *)
Theorem change_detection_blind_past_bound :
  (forall (a : Accessible) (kind : ChangeKind) (t1 t2 : pystr) (w : World),
      firstn (Z.to_nat 10240) t1 = firstn (Z.to_nat 10240) t2 ->
      on_text_changed {| detail := kind; source := with_text a t1 |} w
      = on_text_changed {| detail := kind; source := with_text a t2 |} w) /\
  (forall (env : Env) (pre : list LoopEvent) (event : Event) (ti : TextIface),
      exit_status (run env pre) = None ->
      get_text_iface (source event) = Ok (Some ti) ->
      count_raises ti = false -> read_raises ti = false ->
      firstn (Z.to_nat 10240) (text ti)
      = firstn (Z.to_nat 10240) (last_value (state_of (main env pre boot))) ->
      main env (pre ++ [TextChanged event]) boot = main env pre boot).
Proof.
  split.
  - intros a kind t1 t2 w H. rewrite !on_text_changed_run. simpl source.
    now rewrite (read_text_with_text a t1 t2 H).
  - intros env pre event ti Hwait Hti Hc Hr Hagree.
    destruct (run_waiting env pre Hwait) as [v [w [o [Hmain [Hloop Hb]]]]].
    rewrite (Hmain pre) in Hagree |- *. rewrite (Hmain (pre ++ [TextChanged event])).
    rewrite state_of_after, Hloop in Hagree. cbn [finish state_of] in Hagree.
    destruct (loop_iterate_waiting pre (set_loop_running true (watching_from v boot))
                w o eq_refl eq_refl Hloop)
      as [Hrun [Ht [Hbw Hmore]]].
    rewrite (Hmore [TextChanged event]), Hloop.
    rewrite loop_iterate_text by assumption.
    assert (on_text_changed event w = Returned tt w []) as ->.
    { rewrite on_text_changed_run.
      assert (read_text (source event) = Some (last_value w)) as ->.
      { apply read_text_some. exists ti. repeat split; auto.
        change (truncate (text ti) = truncate (last_value w)) in Hagree.
        rewrite Hagree. symmetry. apply truncate_short. now apply Hbw. }
      now rewrite pystr_eqb_refl. }
    cbn [printed state_of loop_iterate wait after finish app].
    now rewrite !app_nil_r.
Qed.

Lemma change_detection_blind_past_bound_witness :
  let field := text_field 7 [FOCUSED] [] in
  let event := {| detail := Insert; source := with_text field long_text_edited |} in
  long_text <> long_text_edited /\
  on_text_changed {| detail := Insert; source := with_text field long_text |} boot
  = on_text_changed event boot /\
  main long_session [TextChanged event] boot = main long_session [] boot.
Proof.
  intros field event.
  destruct change_detection_blind_past_bound as [Hsame Hquiet].
  split; [|split].
  - intros H. apply (f_equal (@List.length uchar)) in H.
    vm_compute in H. discriminate H.
  - apply (Hsame field Insert long_text long_text_edited boot).
    vm_compute. reflexivity.
  - apply (Hquiet long_session [] event
             {| text := long_text_edited; count_raises := false;
                read_raises := false |}).
    + vm_compute. reflexivity.
    + reflexivity.
    + reflexivity.
    + reflexivity.
    + vm_compute. reflexivity.
Defined.

(** ** Shutdown *)

Lemma set_loop_running_same (w : World) :
  loop_running w = false -> set_loop_running false w = w.
Proof. destruct w; simpl; now intros ->. Qed.

(** C9. While the watcher waits in its loop, the first event that asks it
    to stop (the timer elapsing, SIGTERM or SIGINT, or an interrupt of the
    loop) ends the process with status 0 and with the output it had before
    that event: nothing is printed after it, whatever events follow.  The
    timer ends fired when it was the trigger and cancelled otherwise, never
    pending.  [loop.quit()] on a loop already asked to stop changes nothing,
    and so do a signal handler run then, [timer.cancel()] on a timer that
    has fired, and the expiry of a cancelled timer. *)
Theorem shutdown_is_single_and_silent :
  forall (env : Env) (pre post : list LoopEvent) (trigger : LoopEvent),
    exit_status (run env pre) = None ->
    stops trigger = true ->
    run env (pre ++ trigger :: post)
    = {| stdout := stdout (run env pre); exit_status := Some 0 |} /\
    timer (state_of (main env (pre ++ trigger :: post) boot))
    = match trigger with TimerElapsed => Fired | _ => Cancelled end /\
    (forall w : World, (loop_quit ;; loop_quit) w = loop_quit w) /\
    (forall w : World, loop_running w = false -> loop_quit w = Returned tt w []) /\
    (forall (w : World) (signum : Signum),
        loop_running w = false -> dispatch (Signal signum) w = Returned tt w []) /\
    (forall w : World, timer w = Fired -> timer_cancel w = Returned tt w []) /\
    (forall w : World, timer w = Cancelled -> dispatch TimerElapsed w = Returned tt w []).
Proof.
  intros env pre post trigger Hwait Hstop.
  destruct (run_waiting env pre Hwait) as [v [w [o [Hmain [Hloop Hb]]]]].
  destruct (loop_iterate_waiting pre (set_loop_running true (watching_from v boot))
              w o eq_refl eq_refl Hloop) as [Hrun [Ht [_ Hmore]]].
  unfold run. rewrite (Hmain pre), (Hmain (pre ++ trigger :: post)).
  rewrite Hmore, finish_after, (loop_iterate_stop trigger post w Ht Hstop).
  rewrite Hloop. cbn [finish after observe stdout state_of app].
  rewrite app_nil_r.
  split; [reflexivity|]. split.
  { destruct trigger; try discriminate Hstop; reflexivity. }
  split; [reflexivity|].
  split. { intros w0 H0. rewrite loop_quit_run. now rewrite set_loop_running_same. }
  split. { intros w0 signum H0. simpl. unfold sigterm_handler.
           rewrite loop_quit_run. now rewrite set_loop_running_same. }
  split. { intros w0 H0. rewrite timer_cancel_run. now rewrite H0. }
  intros w0 H0. simpl. py_unfold. now rewrite H0.
Qed.

Lemma shutdown_is_single_and_silent_witness :
  run (session hello_desktop)
      ([edit (lit "hello world")] ++ Signal SIGTERM :: [edit (lit "late"); TimerElapsed])
  = {| stdout := [lit "INITIAL_VALUE:hello"; lit "CHANGED:hello world"];
       exit_status := Some 0 |}
  /\ run (session hello_desktop) ([] ++ TimerElapsed :: [Signal SIGINT])
     = {| stdout := [lit "INITIAL_VALUE:hello"]; exit_status := Some 0 |}.
Proof.
  split.
  - apply (shutdown_is_single_and_silent (session hello_desktop)
             [edit (lit "hello world")] [edit (lit "late"); TimerElapsed]
             (Signal SIGTERM)); reflexivity.
  - apply (shutdown_is_single_and_silent (session hello_desktop)
             [] [Signal SIGINT] TimerElapsed); reflexivity.
Defined.

(** * Further properties of the run *)

Lemma last_cons_default (A : Type) (x d : A) (l : list A) :
  last (x :: l) d = last l x.
Proof.
  revert x d. induction l as [|y l IH]; intros x d; [reflexivity|].
  change (last (x :: y :: l) d) with (last (y :: l) d).
  now rewrite !IH.
Qed.

(** What the loop prints is one CHANGED line for each value that differs
    from the one before, and the state ends on the last of them. *)
Lemma loop_trace (events : list LoopEvent) :
  forall w : World,
    loop_running w = true -> timer w = Pending -> bounded w ->
    exists changes,
      printed (finish (loop_iterate events w))
      = map (protocol_line (lit "CHANGED")) changes /\
      each_differs (last_value w) changes /\
      Forall short changes /\
      last_value (state_of (finish (loop_iterate events w)))
      = last changes (last_value w).
Proof.
  induction events as [|e rest IH]; intros w Hrun Ht Hb.
  - exists []. repeat split; constructor.
  - destruct (stops e) eqn:Hs.
    + exists []. rewrite (loop_iterate_stop e rest w Ht Hs).
      repeat split; try constructor.
      destruct e; try discriminate Hs; reflexivity.
    + destruct e as [event| | |]; try discriminate Hs.
      rewrite loop_iterate_text by assumption.
      rewrite on_text_changed_run.
      destruct (read_text (source event)) as [v|] eqn:Hread;
        [destruct (pystr_eqb v (last_value w)) eqn:Heq|];
        cbn [printed state_of]; rewrite finish_after, printed_after, state_of_after.
      * destruct (IH w Hrun Ht Hb) as [changes H]. now exists changes.
      * apply pystr_eqb_neq in Heq.
        assert (short v) as Hv.
        { apply read_text_some in Hread as [ti [_ [_ [_ ->]]]].
          apply truncate_length. }
        destruct (IH (set_last_value v w) Hrun Ht Hv)
          as [changes [Hout [Hdiff [Hshort Hlast]]]].
        exists (v :: changes). rewrite Hout, Hlast, last_cons_default.
        repeat split; auto.
      * destruct (IH w Hrun Ht Hb) as [changes H]. now exists changes.
Qed.

Lemma started_with (env : Env) (events : list LoopEvent) (focused : Accessible)
      (v : pystr) :
  HAS_ATSPI env = true ->
  startup_returns env = true ->
  for_apps (recursion_limit env) (desktop env) = Some focused ->
  read_text focused = Some v ->
  main env events boot
  = after [protocol_line (lit "INITIAL_VALUE") v]
          (watch_phase env events (set_last_value v boot))
  /\ short v.
Proof.
  intros Hatspi Hstart Hfound Hread. split.
  - now rewrite main_run, Hatspi, Hstart, Hfound, Hread.
  - apply read_text_some in Hread as [ti [_ [_ [_ ->]]]]. apply truncate_length.
Qed.

Lemma exit_status_finish (events : list LoopEvent) (w : World) :
  loop_running w = true -> timer w = Pending ->
  exit_status (observe (finish (loop_iterate events w))) = None \/
  exit_status (observe (finish (loop_iterate events w))) = Some 0.
Proof.
  intros Hrun Ht.
  destruct (loop_waits_or_returns events w Hrun Ht) as [[w' [o H]] | [w' [o H]]];
    rewrite H; [left | right]; reflexivity.
Qed.

(** What [main] prints from line 121 on: CHANGED lines for values each
    different from the one before; nothing at all when one of the calls
    before the loop raises. *)
Lemma watch_phase_trace (env : Env) (events : list LoopEvent) (v : pystr) :
  short v ->
  exists changes,
    printed (watch_phase env events (set_last_value v boot))
    = map (protocol_line (lit "CHANGED")) changes /\
    each_differs v changes /\
    Forall short changes /\
    last_value (state_of (watch_phase env events (set_last_value v boot)))
    = last changes v /\
    (setup_returns env = true /\
     (exit_status (observe (watch_phase env events (set_last_value v boot))) = None \/
      exit_status (observe (watch_phase env events (set_last_value v boot))) = Some 0)
     \/
     setup_returns env = false /\ changes = [] /\
     exit_status (observe (watch_phase env events (set_last_value v boot))) = Some 1).
Proof.
  intros Hv. unfold watch_phase. destruct (setup_returns env).
  - change (set_timer Pending (set_last_value v boot)) with (watching_from v boot).
    rewrite run_until_stopped_finish.
    destruct (loop_trace events (set_loop_running true (watching_from v boot))
                         eq_refl eq_refl Hv) as [changes [Hout [Hdiff [Hshort Hlast]]]].
    exists changes.
    split; [exact Hout|]. split; [exact Hdiff|]. split; [exact Hshort|].
    split; [exact Hlast|]. left. split; [reflexivity|].
    now apply exit_status_finish.
  - exists [].
    split; [reflexivity|]. split; [exact I|]. split; [apply Forall_nil|].
    split; [now destruct (timer_armed env)|].
    right. split; [reflexivity|]. split; reflexivity.
Qed.

(** X1. The output of every run is of one of five forms: the line NO_ELEMENT
    with exit status 1; the line NO_VALUE with exit status 0; nothing at
    all with exit status 1, when a call before the search raises outside
    any [try]; the INITIAL_VALUE line alone with exit status 1, when a call
    between that line and the loop raises; or an INITIAL_VALUE line followed
    by CHANGED lines only, the process then still waiting or ended with
    status 0.  Nothing but lines of the protocol is ever printed, and the
    status is 0 or 1. *)
Theorem run_speaks_protocol :
  forall (env : Env) (events : list LoopEvent),
    run env events = {| stdout := [NO_ELEMENT]; exit_status := Some 1 |} \/
    run env events = {| stdout := [NO_VALUE]; exit_status := Some 0 |} \/
    (HAS_ATSPI env = true /\ startup_returns env = false /\
     run env events = {| stdout := []; exit_status := Some 1 |}) \/
    (setup_returns env = false /\
     exists v,
       run env events
       = {| stdout := [protocol_line (lit "INITIAL_VALUE") v];
            exit_status := Some 1 |}) \/
    exists v changes,
      stdout (run env events)
      = protocol_line (lit "INITIAL_VALUE") v
        :: map (protocol_line (lit "CHANGED")) changes /\
      (exit_status (run env events) = None \/
       exit_status (run env events) = Some 0).
Proof.
  intros env events. unfold run.
  destruct (HAS_ATSPI env) eqn:Hatspi;
    [|left; now rewrite main_run, Hatspi].
  destruct (startup_returns env) eqn:Hstart;
    [|right; right; left; now rewrite main_run, Hatspi, Hstart].
  destruct (for_apps (recursion_limit env) (desktop env)) as [focused|] eqn:Hfound;
    [|left; now rewrite main_run, Hatspi, Hstart, Hfound].
  destruct (read_text focused) as [v|] eqn:Hread;
    [|right; left; now rewrite main_run, Hatspi, Hstart, Hfound, Hread].
  right. right. right.
  destruct (started_with env events focused v Hatspi Hstart Hfound Hread) as [-> Hv].
  destruct (watch_phase_trace env events v Hv)
    as [changes [Hout [_ [_ [_ [[Hs Hexit] | [Hs [-> Hexit]]]]]]]].
  - right. exists v, changes. rewrite observe_after. cbn [stdout exit_status].
    rewrite stdout_observe, Hout. split; [reflexivity | exact Hexit].
  - left. split; [exact Hs|]. exists v. rewrite observe_after.
    rewrite stdout_observe, Hout, Hexit. reflexivity.
Qed.

Example run_without_registry :
  run no_registry [edit (lit "x")] = {| stdout := []; exit_status := Some 1 |}.
Proof. reflexivity. Qed.

(** X2. Once a text has been read from the focused element, the lines after
    the first carry values each different from the one before it, the first
    of them different from the initial value, and none longer than 10240
    characters: over a whole run no value is reported twice in a row. *)
Theorem run_never_repeats_a_value :
  forall (env : Env) (events : list LoopEvent) (focused : Accessible) (v : pystr),
    HAS_ATSPI env = true ->
    startup_returns env = true ->
    for_apps (recursion_limit env) (desktop env) = Some focused ->
    read_text focused = Some v ->
    exists changes,
      stdout (run env events)
      = protocol_line (lit "INITIAL_VALUE") v
        :: map (protocol_line (lit "CHANGED")) changes /\
      each_differs v changes /\
      Forall short (v :: changes).
Proof.
  intros env events focused v Hatspi Hstart Hfound Hread. unfold run.
  destruct (started_with env events focused v Hatspi Hstart Hfound Hread) as [-> Hv].
  destruct (watch_phase_trace env events v Hv)
    as [changes [Hout [Hdiff [Hshort _]]]].
  exists changes. rewrite observe_after. cbn [stdout].
  rewrite stdout_observe, Hout. repeat split; auto.
Qed.

Lemma run_never_repeats_a_value_witness :
  exists changes,
    stdout (run (session hello_desktop)
                [edit (lit "hello"); edit (lit "hi"); edit (lit "hi");
                 edit (lit "hello")])
    = protocol_line (lit "INITIAL_VALUE") (lit "hello")
      :: map (protocol_line (lit "CHANGED")) changes /\
    each_differs (lit "hello") changes.
Proof.
  destruct (run_never_repeats_a_value (session hello_desktop)
              [edit (lit "hello"); edit (lit "hi"); edit (lit "hi");
               edit (lit "hello")]
              (text_field 7 [VISIBLE; FOCUSED] (lit "hello")) (lit "hello")
              eq_refl eq_refl eq_refl eq_refl) as [changes [H1 [H2 _]]].
  exists changes. split; assumption.
Defined.

(** X3. The cell [last_value] always holds the value of the last line printed:
    after any events it is the last value reported, or the initial value
    when none was. *)
Theorem last_value_is_last_line :
  forall (env : Env) (events : list LoopEvent) (focused : Accessible) (v : pystr),
    HAS_ATSPI env = true ->
    startup_returns env = true ->
    for_apps (recursion_limit env) (desktop env) = Some focused ->
    read_text focused = Some v ->
    exists changes,
      printed (main env events boot)
      = map (protocol_line (lit "INITIAL_VALUE")) [v]
        ++ map (protocol_line (lit "CHANGED")) changes /\
      last_value (state_of (main env events boot)) = last changes v.
Proof.
  intros env events focused v Hatspi Hstart Hfound Hread.
  destruct (started_with env events focused v Hatspi Hstart Hfound Hread) as [-> Hv].
  destruct (watch_phase_trace env events v Hv)
    as [changes [Hout [_ [_ [Hlast _]]]]].
  exists changes. rewrite printed_after, state_of_after, Hout.
  split; [reflexivity | exact Hlast].
Qed.

Lemma last_value_is_last_line_witness :
  exists changes,
    printed (main (session hello_desktop) [edit (lit "hi"); edit (lit "ho")] boot)
    = map (protocol_line (lit "INITIAL_VALUE")) [lit "hello"]
      ++ map (protocol_line (lit "CHANGED")) changes /\
    last_value (state_of (main (session hello_desktop)
                               [edit (lit "hi"); edit (lit "ho")] boot))
    = last changes (lit "hello").
Proof.
  apply (last_value_is_last_line (session hello_desktop)
           [edit (lit "hi"); edit (lit "ho")]
           (text_field 7 [VISIBLE; FOCUSED] (lit "hello")) (lit "hello"));
    reflexivity.
Defined.

(** ** Events that cannot be read *)

Lemma unreadable_source (a : Accessible) :
  get_text_iface a = Ok None \/
  get_text_iface a = Raise \/
  (exists ti, get_text_iface a = Ok (Some ti) /\
              (count_raises ti = true \/ read_raises ti = true)) ->
  read_text a = None.
Proof.
  unfold read_text.
  intros [-> | [-> | [ti [-> [-> | ->]]]]]; try reflexivity.
  now rewrite orb_true_r.
Qed.

(** X4. The handler never fails: for every event and state it returns, prints
    at most one line, leaves the loop flag and the timer as they are, and
    keeps or shortens to at most 10240 characters the value it holds.  On a
    source without text interface, or whose interface, character count or
    text cannot be read, it prints nothing and changes nothing. *)
Theorem handler_never_fails :
  forall (event : Event) (w : World),
    (exists w' o,
        on_text_changed event w = Returned tt w' o /\
        (List.length o <= 1)%nat /\
        loop_running w' = loop_running w /\ timer w' = timer w /\
        (last_value w' = last_value w \/ short (last_value w'))) /\
    (get_text_iface (source event) = Ok None \/
     get_text_iface (source event) = Raise \/
     (exists ti, get_text_iface (source event) = Ok (Some ti) /\
                 (count_raises ti = true \/ read_raises ti = true)) ->
     on_text_changed event w = Returned tt w []).
Proof.
  intros event w. split.
  - rewrite on_text_changed_run.
    destruct (read_text (source event)) as [v|] eqn:Hread;
      [destruct (pystr_eqb v (last_value w))|].
    + exists w, []. repeat split; auto.
    + exists (set_last_value v w), [protocol_line (lit "CHANGED") v].
      repeat split; auto. right.
      apply read_text_some in Hread as [ti [_ [_ [_ ->]]]]. apply truncate_length.
    + exists w, []. repeat split; auto.
  - intros H. rewrite on_text_changed_run. now rewrite (unreadable_source _ H).
Qed.

Lemma handler_never_fails_witness :
  on_text_changed {| detail := Insert; source := stale 9 |} boot
  = Returned tt boot []
  /\ on_text_changed
       {| detail := Delete;
          source := Element 3 (Ok [FOCUSED]) (Ok [])
                      (Ok (Some {| text := lit "x"; count_raises := true;
                                   read_raises := false |})) |} boot
     = Returned tt boot [].
Proof.
  split.
  - apply (handler_never_fails {| detail := Insert; source := stale 9 |} boot).
    right. left. reflexivity.
  - apply (handler_never_fails
             {| detail := Delete;
                source := Element 3 (Ok [FOCUSED]) (Ok [])
                            (Ok (Some {| text := lit "x"; count_raises := true;
                                         read_raises := false |})) |} boot).
    right. right. eexists. split; [reflexivity|]. now left.
Defined.

Lemma loop_skips_unreadable (pre : list LoopEvent) :
  forall (w : World) (event : Event) (post : list LoopEvent),
    loop_running w = true -> timer w = Pending ->
    read_text (source event) = None ->
    finish (loop_iterate (pre ++ TextChanged event :: post) w)
    = finish (loop_iterate (pre ++ post) w).
Proof.
  induction pre as [|e pre IH]; intros w event post Hrun Ht Hread.
  - simpl app. rewrite loop_iterate_text by assumption.
    rewrite on_text_changed_run, Hread. cbn [printed state_of].
    now rewrite after_nil.
  - simpl app. destruct (stops e) eqn:Hs.
    + now rewrite !(loop_iterate_stop e _ w Ht Hs).
    + destruct e as [event0| | |]; try discriminate Hs.
      rewrite !(loop_iterate_text event0) by assumption.
      destruct (on_text_changed_returns event0 w) as [w1 [o1 [E [Hr [Ht1 _]]]]].
      rewrite E. cbn [printed state_of]. rewrite !finish_after.
      f_equal. apply IH; congruence.
Qed.

(** X5. An event that cannot be read leaves no trace: the run is the same with
    the event taken out, wherever in the sequence it came. *)
Theorem unreadable_events_leave_no_trace :
  forall (env : Env) (pre post : list LoopEvent) (event : Event),
    get_text_iface (source event) = Ok None \/
    get_text_iface (source event) = Raise \/
    (exists ti, get_text_iface (source event) = Ok (Some ti) /\
                (count_raises ti = true \/ read_raises ti = true)) ->
    run env (pre ++ TextChanged event :: post) = run env (pre ++ post).
Proof.
  intros env pre post event H. apply unreadable_source in H.
  unfold run. rewrite !main_run.
  destruct (HAS_ATSPI env); [|reflexivity]. simpl negb. cbv iota.
  destruct (startup_returns env); [|reflexivity]. simpl negb. cbv iota.
  destruct (for_apps (recursion_limit env) (desktop env)) as [focused|];
    [|reflexivity].
  destruct (read_text focused) as [v|]; [|reflexivity].
  unfold watch_phase. destruct (setup_returns env); [|reflexivity].
  change (set_timer Pending (set_last_value v boot)) with (watching_from v boot).
  rewrite !run_until_stopped_finish.
  now rewrite (loop_skips_unreadable
                 pre (set_loop_running true (watching_from v boot)) event post
                 eq_refl eq_refl H).
Qed.

Lemma unreadable_events_leave_no_trace_witness :
  run (session hello_desktop)
      ([edit (lit "hi")] ++ stale_event :: [edit (lit "ho"); TimerElapsed])
  = run (session hello_desktop) ([edit (lit "hi")] ++ [edit (lit "ho"); TimerElapsed]).
Proof.
  apply (unreadable_events_leave_no_trace (session hello_desktop)
           [edit (lit "hi")] [edit (lit "ho"); TimerElapsed]
           {| detail := Insert; source := stale 9 |}).
  right. left. reflexivity.
Defined.

(** ** How runs extend *)

(** The loop after some events either still waits, and then goes on with
    what follows, or has been stopped, and then nothing that follows is
    looked at. *)
Lemma loop_extends (pre : list LoopEvent) :
  forall w : World,
    loop_running w = true -> timer w = Pending ->
    (exists w' o,
        finish (loop_iterate pre w) = Waiting w' o /\
        forall post, finish (loop_iterate (pre ++ post) w)
                     = after o (finish (loop_iterate post w'))) \/
    (exists w' o,
        finish (loop_iterate pre w) = Returned tt w' o /\
        forall post, finish (loop_iterate (pre ++ post) w) = Returned tt w' o).
Proof.
  induction pre as [|e pre IH]; intros w Hrun Ht.
  - left. exists w, []. split; [reflexivity|].
    intros post. now rewrite after_nil.
  - destruct (stops e) eqn:Hs.
    + right. rewrite (loop_iterate_stop e pre w Ht Hs). eexists _, _.
      split; [reflexivity|]. intros post. simpl app.
      now rewrite (loop_iterate_stop e (pre ++ post) w Ht Hs).
    + destruct e as [event| | |]; try discriminate Hs.
      destruct (on_text_changed_returns event w) as [w1 [o1 [E [Hr [Ht1 _]]]]].
      rewrite loop_iterate_text by assumption.
      rewrite E. cbn [printed state_of]. rewrite finish_after.
      destruct (IH w1) as [[w' [o [H Hpost]]] | [w' [o [H Hpost]]]];
        try congruence; rewrite H; [left | right];
        eexists _, _; (split; [reflexivity|]); intros post; simpl app;
        rewrite loop_iterate_text by assumption;
        rewrite E; cbn [printed state_of]; rewrite finish_after, Hpost;
        [now rewrite after_after | reflexivity].
Qed.

(** X6. Output is only ever added to: what a run has printed after some events
    is the beginning of what it has printed after more of them.  And a
    process that has ended stays as it ended, whatever events come later. *)
Theorem output_only_grows :
  forall (env : Env) (pre post : list LoopEvent),
    (exists more,
        stdout (run env (pre ++ post)) = stdout (run env pre) ++ more) /\
    (exit_status (run env pre) <> None ->
     run env (pre ++ post) = run env pre).
Proof.
  intros env pre post. unfold run. rewrite !main_run.
  destruct (HAS_ATSPI env);
    [|split; [exists []; now rewrite app_nil_r | reflexivity]].
  simpl negb. cbv iota.
  destruct (startup_returns env);
    [|split; [exists []; now rewrite app_nil_r | reflexivity]].
  simpl negb. cbv iota.
  destruct (for_apps (recursion_limit env) (desktop env)) as [focused|];
    [|split; [exists []; now rewrite app_nil_r | reflexivity]].
  destruct (read_text focused) as [v|];
    [|split; [exists []; now rewrite app_nil_r | reflexivity]].
  unfold watch_phase. destruct (setup_returns env);
    [|split; [exists []; now rewrite app_nil_r | reflexivity]].
  change (set_timer Pending (set_last_value v boot)) with (watching_from v boot).
  rewrite !run_until_stopped_finish, !observe_after.
  destruct (loop_extends pre (set_loop_running true (watching_from v boot))
                         eq_refl eq_refl)
    as [[w' [o [H Hpost]]] | [w' [o [H Hpost]]]]; rewrite (Hpost post), H.
  - split.
    + exists (printed (finish (loop_iterate post w'))).
      rewrite !stdout_observe, printed_after. cbn [stdout printed].
      now rewrite app_assoc.
    + cbn [observe exit_status]. congruence.
  - split; [exists []; now rewrite app_nil_r | reflexivity].
Qed.

Lemma output_only_grows_witness :
  run (session hello_desktop)
      ([edit (lit "hi"); Signal SIGINT] ++ [edit (lit "ho"); TimerElapsed])
  = run (session hello_desktop) [edit (lit "hi"); Signal SIGINT].
Proof.
  apply (output_only_grows (session hello_desktop)
           [edit (lit "hi"); Signal SIGINT] [edit (lit "ho"); TimerElapsed]).
  vm_compute. discriminate.
Defined.

(** ** What the run does not depend on *)

(** X7. The line on standard input is read and dropped: the run is the same
    whatever the line is, and the same when reading it raises. *)
Theorem stdin_is_ignored :
  forall (env : Env) (events : list LoopEvent) (line : outcome pystr),
    run (with_stdin env line) events = run env events.
Proof.
  intros env events line. unfold run. now rewrite !main_run.
Qed.




(** ** The search where nothing raises *)

Lemma first_some_find (frames : nat) (apps : list Accessible) :
  forallb (within_reach frames) apps = true ->
  first_some (_find_focused frames) apps
  = find is_focused (flat_map elements apps).
Proof.
  induction apps as [|app apps IH]; intros H; [reflexivity|].
  simpl in H. apply andb_true_iff in H as [Happ Hrest].
  unfold within_reach in Happ. apply andb_true_iff in Happ as [Hfree Hdeep].
  apply Nat.leb_le in Hdeep. simpl.
  rewrite find_app, find_focused_visit,
    (visit_order_error_free frames app Hfree Hdeep).
  destruct (find is_focused (elements app)); [reflexivity | now apply IH].
Qed.

Lemma find_none_filter (A : Type) (f : A -> bool) (l : list A) :
  find f l = None <-> filter f l = [].
Proof.
  induction l as [|x l IH]; simpl; [tauto|].
  destruct (f x); [split; discriminate | exact IH].
Qed.

Lemma initial_line_is_not_no_element (v : pystr) :
  protocol_line (lit "INITIAL_VALUE") v <> NO_ELEMENT.
Proof.
  intros H. apply (f_equal (fun l => map code (firstn 1 l))) in H.
  unfold protocol_line in H.
  destruct (has_line_break (truncate v)); discriminate H.
Qed.

(** X9. On a desktop where no query raises and no application is deeper
    than the search may nest its calls, the search returns the first focused
    element of the whole desktop in pre-order, and the watcher ends on
    NO_ELEMENT with status 1 exactly when no element of the desktop is
    focused: there a focused element is never missed.  (The calls that lead
    to the search return.) *)
Theorem focus_never_missed_without_errors :
  forall (env : Env) (events : list LoopEvent) (frames : nat),
    HAS_ATSPI env = true ->
    startup_returns env = true ->
    recursion_limit env = S frames ->
    forallb (within_reach frames) (desktop_apps (desktop env)) = true ->
    for_apps (recursion_limit env) (desktop env)
    = find is_focused (desktop_elements (desktop env)) /\
    (run env events = {| stdout := [NO_ELEMENT]; exit_status := Some 1 |} <->
     filter is_focused (desktop_elements (desktop env)) = []).
Proof.
  intros env events frames Hatspi Hstart Hlimit Hreach.
  assert (for_apps (recursion_limit env) (desktop env)
          = find is_focused (desktop_elements (desktop env))) as Hfind.
  { rewrite for_apps_first_some, Hlimit. now apply first_some_find. }
  split; [exact Hfind|].
  rewrite <- find_none_filter, <- Hfind. unfold run.
  rewrite main_run, Hatspi, Hstart. simpl negb. cbv iota.
  destruct (for_apps (recursion_limit env) (desktop env)) as [focused|]; [|tauto].
  split; [|discriminate]. intros H. exfalso.
  destruct (read_text focused) as [v|]; [|discriminate H].
  rewrite observe_after in H.
  apply (f_equal (fun r => hd [] (stdout r))) in H. cbn [stdout app hd] in H.
  exact (initial_line_is_not_no_element v H).
Qed.

Lemma focus_never_missed_without_errors_witness :
  for_apps 1000 hello_desktop = find is_focused (desktop_elements hello_desktop) /\
  run (session hello_desktop) [] <> {| stdout := [NO_ELEMENT]; exit_status := Some 1 |}.
Proof.
  destruct (focus_never_missed_without_errors (session hello_desktop) [] 999
              eq_refl eq_refl eq_refl eq_refl) as [H1 H2].
  split; [exact H1|]. intros H. apply H2 in H. discriminate H.
Defined.

Example focus_missed_behind_an_error :
  filter is_focused (desktop_elements (firstn 4 broken_desktop))
  = [text_field 4 [FOCUSED] (lit "lost")]
  /\ for_apps 1000 (firstn 4 broken_desktop) = None.
Proof. split; reflexivity. Qed.

(** ** A slot that raises *)

Lemma for_children_app (frames : nat) (l1 l2 : list Slot) :
  for_children frames (l1 ++ l2) =
  match for_children frames l1 with
  | Ok None => for_children frames l2
  | r => r
  end.
Proof.
  induction l1 as [|sl l1 IH]; [reflexivity|].
  destruct sl as [[c|]|]; simpl; [|exact IH|reflexivity].
  destruct frames as [|deeper]; simpl; [reflexivity|].
  destruct (_find_focused deeper c); [reflexivity | exact IH].
Qed.

Lemma for_apps_app (frames : nat) (l1 l2 : list Slot) :
  for_apps frames (l1 ++ l2) =
  match for_apps frames l1 with
  | Some focused => Some focused
  | None => for_apps frames l2
  end.
Proof.
  induction l1 as [|sl l1 IH]; [reflexivity|].
  destruct sl as [[c|]|]; simpl; try exact IH.
  destruct frames as [|deeper]; simpl; [exact IH|].
  destruct (_find_focused deeper c); [reflexivity | exact IH].
Qed.

(** X10. Among the children of an element that is not focused, a slot that
    raises hides every slot after it: the search of the element gives the
    same answer whatever those slots hold, so a focused element behind it
    is not found.  Among the applications of the desktop a slot that raises
    hides nothing: the search goes on as if the slot were not there.  This
    holds at every depth the calls may nest to. *)
Theorem raising_slot_hides_later_children :
  forall (frames : nat) (n : Z) (ss : StateSet) (ti : outcome (option TextIface))
         (before rest1 rest2 : list Slot),
    contains ss FOCUSED = false ->
    _find_focused frames (Element n (Ok ss) (Ok (before ++ Raise :: rest1)) ti)
    = _find_focused frames (Element n (Ok ss) (Ok (before ++ Raise :: rest2)) ti) /\
    for_apps frames (before ++ Raise :: rest1) = for_apps frames (before ++ rest1).
Proof.
  intros frames n ss ti before rest1 rest2 Hf. split.
  - rewrite !find_focused_unfold. simpl. rewrite Hf.
    rewrite !for_children_app. simpl.
    now destruct (for_children frames before) as [[r|]|].
  - now rewrite !for_apps_app.
Qed.

Lemma raising_slot_hides_later_children_witness :
  let field := text_field 4 [FOCUSED] (lit "lost") in
  _find_focused 999
    (Element 2 (Ok [VISIBLE]) (Ok ([] ++ Raise :: [Ok (Some field)])) (Ok None))
  = None
  /\ for_apps 1000 ([] ++ Raise :: [Ok (Some field)]) = Some field.
Proof.
  intros field.
  destruct (raising_slot_hides_later_children 999 2 [VISIBLE] (Ok None) []
              [Ok (Some field)] [] eq_refl) as [H1 _].
  destruct (raising_slot_hides_later_children 1000 2 [VISIBLE] (Ok None) []
              [Ok (Some field)] [] eq_refl) as [_ H2].
  split; [exact (eq_trans H1 eq_refl) | exact (eq_trans H2 eq_refl)].
Defined.

(** * Further properties of the encoder *)

(** ** Bits of a code point *)

Lemma split6 (n : Z) :
  Z.lor (Z.shiftl (Z.shiftr n 6) 6) (Z.land n 0x3F) = n.
Proof.
  change 0x3F with (Z.ones 6). rewrite <- Z.ldiff_ones_r by lia.
  apply Z.lor_ldiff_and.
Qed.

Lemma split12 (n : Z) :
  Z.lor (Z.lor (Z.shiftl (Z.shiftr n 12) 12)
               (Z.shiftl (Z.land (Z.shiftr n 6) 0x3F) 6))
        (Z.land n 0x3F) = n.
Proof.
  pose proof (split6 (Z.shiftr n 6)) as E.
  apply (f_equal (fun x => Z.shiftl x 6)) in E.
  rewrite Z.shiftl_lor, Z.shiftl_shiftl, Z.shiftr_shiftr in E by lia.
  change (6 + 6) with 12 in E. rewrite E. apply split6.
Qed.

Lemma split18 (n : Z) :
  Z.lor (Z.lor (Z.lor (Z.shiftl (Z.shiftr n 18) 18)
                      (Z.shiftl (Z.land (Z.shiftr n 12) 0x3F) 12))
               (Z.shiftl (Z.land (Z.shiftr n 6) 0x3F) 6))
        (Z.land n 0x3F) = n.
Proof.
  pose proof (split12 (Z.shiftr n 6)) as E.
  apply (f_equal (fun x => Z.shiftl x 6)) in E.
  rewrite !Z.shiftl_lor, !Z.shiftl_shiftl, !Z.shiftr_shiftr in E by lia.
  change (6 + 12) with 18 in E. change (12 + 6) with 18 in E.
  change (6 + 6) with 12 in E. rewrite E. apply split6.
Qed.

Lemma six_bits (n : Z) : 0 <= Z.land n 0x3F < 64.
Proof.
  change 0x3F with (Z.ones 6). rewrite Z.land_ones by lia.
  apply Z.mod_pos_bound. lia.
Qed.

Lemma shiftr_range (n k bound : Z) :
  0 <= k -> 0 <= n < bound * 2 ^ k -> 0 <= Z.shiftr n k < bound.
Proof.
  intros Hk Hn. rewrite Z.shiftr_div_pow2 by assumption.
  assert (0 < 2 ^ k) by (apply Z.pow_pos_nonneg; lia).
  split; [apply Z.div_pos; lia | apply Z.div_lt_upper_bound; lia].
Qed.

(** The marks of UTF-8 on a byte, read off again. *)
Lemma utf8_marks (x : Z) :
  is_byte x ->
  (x < 64 -> Z.land (Z.lor 0x80 x) 0x3F = x) /\
  (x < 32 -> (Z.lor 0xC0 x <? 0x80) = false /\ (Z.lor 0xC0 x <? 0xC0) = false /\
             (Z.lor 0xC0 x <? 0xE0) = true /\ Z.land (Z.lor 0xC0 x) 0x1F = x) /\
  (x < 16 -> (Z.lor 0xE0 x <? 0x80) = false /\ (Z.lor 0xE0 x <? 0xC0) = false /\
             (Z.lor 0xE0 x <? 0xE0) = false /\ (Z.lor 0xE0 x <? 0xF0) = true /\
             Z.land (Z.lor 0xE0 x) 0x0F = x) /\
  (x < 8 -> (Z.lor 0xF0 x <? 0x80) = false /\ (Z.lor 0xF0 x <? 0xC0) = false /\
            (Z.lor 0xF0 x <? 0xE0) = false /\ (Z.lor 0xF0 x <? 0xF0) = false /\
            Z.land (Z.lor 0xF0 x) 0x07 = x).
Proof.
  intros Hx.
  pose proof (for_all_bytes
    (fun x =>
       ((64 <=? x) || (Z.land (Z.lor 0x80 x) 0x3F =? x))
       && ((32 <=? x)
           || (negb (Z.lor 0xC0 x <? 0x80) && negb (Z.lor 0xC0 x <? 0xC0)
               && (Z.lor 0xC0 x <? 0xE0) && (Z.land (Z.lor 0xC0 x) 0x1F =? x)))
       && ((16 <=? x)
           || (negb (Z.lor 0xE0 x <? 0x80) && negb (Z.lor 0xE0 x <? 0xC0)
               && negb (Z.lor 0xE0 x <? 0xE0) && (Z.lor 0xE0 x <? 0xF0)
               && (Z.land (Z.lor 0xE0 x) 0x0F =? x)))
       && ((8 <=? x)
           || (negb (Z.lor 0xF0 x <? 0x80) && negb (Z.lor 0xF0 x <? 0xC0)
               && negb (Z.lor 0xF0 x <? 0xE0) && negb (Z.lor 0xF0 x <? 0xF0)
               && (Z.land (Z.lor 0xF0 x) 0x07 =? x))))) as H.
  specialize (H ltac:(vm_compute; reflexivity) x Hx). cbv beta in H.
  repeat (apply andb_true_iff in H as [H ?]).
  split; [|split; [|split]]; intros Hlt;
    match goal with
    | E : (?k <=? x) || _ = true |- _ =>
        assert ((k <=? x) = false) as Hk by (apply Z.leb_gt; lia);
        rewrite Hk in E; cbn [orb] in E; clear Hk;
        repeat (apply andb_true_iff in E as [E ?]);
        repeat match goal with
               | F : negb _ = true |- _ => apply negb_true_iff in F
               | F : (_ =? _) = true |- _ => apply Z.eqb_eq in F
               end;
        repeat split; assumption
    end.
Qed.

(** ** UTF-8 read back *)

Lemma code_chr (n : Z) : is_scalar n = true -> code (chr n) = n.
Proof.
  intros H. unfold chr.
  assert (forall (b : bool) (e : is_scalar n = b),
             code (match b as b' return is_scalar n = b' -> uchar with
                   | true => fun H' => UChar n H'
                   | false => fun _ => UChar 0xFFFD eq_refl
                   end e) = if b then n else 0xFFFD) as G.
  { intros [|] e; reflexivity. }
  rewrite G. now rewrite H.
Qed.

Lemma chr_code (c : uchar) : chr (code c) = c.
Proof. apply uchar_ext. apply code_chr. apply code_scalar. Qed.

Lemma scalar_range (c : uchar) : 0 <= code c <= 0x10FFFF.
Proof.
  destruct c as [n Hn]. simpl. unfold is_scalar in Hn.
  apply orb_true_iff in Hn as [H|H]; apply andb_true_iff in H as [H1 H2];
    apply Z.leb_le in H1; first [apply Z.ltb_lt in H2 | apply Z.leb_le in H2]; lia.
Qed.

Lemma utf8_decode_char (c : uchar) (rest : bytes) :
  utf8_decode (utf8_char c ++ rest) = option_map (cons c) (utf8_decode rest).
Proof.
  pose proof (scalar_range c) as Hr. pose proof (chr_code c) as Hc.
  unfold utf8_char. set (n := code c) in *.
  pose proof (six_bits n) as L0.
  pose proof (six_bits (Z.shiftr n 6)) as L1.
  pose proof (six_bits (Z.shiftr n 12)) as L2.
  destruct (utf8_marks (Z.land n 0x3F)) as [M0 _]; [unfold is_byte; lia|].
  destruct (utf8_marks (Z.land (Z.shiftr n 6) 0x3F)) as [M1 _]; [unfold is_byte; lia|].
  destruct (utf8_marks (Z.land (Z.shiftr n 12) 0x3F)) as [M2 _]; [unfold is_byte; lia|].
  specialize (M0 ltac:(lia)). specialize (M1 ltac:(lia)). specialize (M2 ltac:(lia)).
  destruct (n <? 0x80) eqn:E1.
  { cbn [app utf8_decode]. now rewrite E1, Hc. }
  apply Z.ltb_ge in E1.
  destruct (n <? 0x800) eqn:E2; [|destruct (n <? 0x10000) eqn:E3].
  - apply Z.ltb_lt in E2.
    pose proof (shiftr_range n 6 32 ltac:(lia) ltac:(lia)) as Hh.
    destruct (utf8_marks (Z.shiftr n 6)) as [_ [M _]]; [unfold is_byte; lia|].
    destruct (M ltac:(lia)) as [A1 [A2 [A3 A4]]].
    cbn [app utf8_decode]. rewrite A1, A2, A3, A4, M0, split6. now rewrite Hc.
  - apply Z.ltb_lt in E3.
    pose proof (shiftr_range n 12 16 ltac:(lia) ltac:(lia)) as Hh.
    destruct (utf8_marks (Z.shiftr n 12)) as [_ [_ [M _]]]; [unfold is_byte; lia|].
    destruct (M ltac:(lia)) as [A1 [A2 [A3 [A4 A5]]]].
    cbn [app utf8_decode]. rewrite A1, A2, A3, A4, A5, M0, M1, split12.
    now rewrite Hc.
  - pose proof (shiftr_range n 18 8 ltac:(lia) ltac:(lia)) as Hh.
    destruct (utf8_marks (Z.shiftr n 18)) as [_ [_ [_ M]]]; [unfold is_byte; lia|].
    destruct (M ltac:(lia)) as [A1 [A2 [A3 [A4 A5]]]].
    cbn [app utf8_decode]. rewrite A1, A2, A3, A4, A5, M0, M1, M2, split18.
    now rewrite Hc.
Qed.

Lemma utf8_decode_encode (s : pystr) : utf8_decode (utf8_encode s) = Some s.
Proof.
  unfold utf8_encode. induction s as [|c s IH]; [reflexivity|].
  simpl flat_map. now rewrite utf8_decode_char, IH.
Qed.

(** ** Lines read back *)

Lemma strip_prefix_app (p q r : pystr) :
  strip_prefix (p ++ q) (p ++ r) = strip_prefix q r.
Proof.
  induction p as [|a p IH]; [reflexivity|].
  simpl. now rewrite uchar_eqb_refl.
Qed.

Lemma ord_ascii_decode_b64 (bs : bytes) :
  map ord (ascii_decode (b64encode bs)) = b64encode bs.
Proof.
  pose proof (b64encode_digits bs) as F. unfold ascii_decode.
  induction (b64encode bs) as [|d ds IH]; [reflexivity|].
  inversion_clear F as [|? ? Hd Hds]. simpl. rewrite (IH Hds). f_equal.
  assert (forallb is_scalar
                  (map (fun a => Z.of_N (N_of_ascii a)) (b64_alphabet ++ ["="%char]))
          = true) as Hall by (vm_compute; reflexivity).
  rewrite forallb_forall in Hall. unfold ord. apply code_chr. now apply Hall.
Qed.

Lemma read_line_protocol_line (tag value : pystr) :
  read_line tag (protocol_line tag value) = Some (truncate value).
Proof.
  unfold read_line, protocol_line.
  destruct (has_line_break (truncate value)).
  - rewrite strip_prefix_app.
    change (strip_prefix (lit "_B64:") (lit "_B64:" ++ ?e))
      with (strip_prefix [] e).
    cbn [strip_prefix].
    now rewrite ord_ascii_decode_b64, b64decode_text, utf8_decode_encode.
  - rewrite strip_prefix_app.
    change (strip_prefix (lit "_B64:") (lit ":" ++ truncate value))
      with (@None pystr).
    now rewrite strip_prefix_app.
Qed.

(** X11. A line printed by [_emit_text] reads back as the first 10240 characters
    of the value, in either form and for every tag and text: the base64
    form decodes to the UTF-8 bytes and those to the text, and the two forms
    are not taken for one another. *)
Theorem emitted_line_reads_back :
  forall (S : Type) (tag value : pystr) (s : S),
    exists line,
      _emit_text tag value s = Returned tt s [line] /\
      read_line tag line = Some (firstn (Z.to_nat 10240) value).
Proof.
  intros S tag value s. exists (protocol_line tag value).
  split; [apply emit_text_run | apply read_line_protocol_line].
Qed.

Example read_back_multibyte :
  let v := [chr 0x41; LF; chr 0xE9; chr 0x20AC; CR; chr 0x1F600] in
  printed (_emit_text (lit "CHANGED") v tt) = [lit "CHANGED_B64:QQrDqeKCrA3wn5iA"]
  /\ read_line (lit "CHANGED") (lit "CHANGED_B64:QQrDqeKCrA3wn5iA") = Some v.
Proof. split; reflexivity. Qed.

(** ** One line, of bounded length *)

(** X12. With a tag that holds no line break, what [_emit_text] prints holds
    none either, whatever the value: every print is one line for a reader
    that splits on line feeds or carriage returns. *)
Theorem emitted_line_has_no_break :
  forall (S : Type) (tag value : pystr) (s : S) (line : pystr),
    ~ In LF tag -> ~ In CR tag ->
    In line (printed (_emit_text tag value s)) ->
    ~ In LF line /\ ~ In CR line.
Proof.
  intros S tag value s line Hlf Hcr Hin.
  rewrite emit_text_run in Hin. destruct Hin as [<- | []].
  destruct (protocol_line_single tag value) as [payload [-> [H1 H2]]].
  split; intros H; apply in_app_or in H as [H|H]; auto.
Qed.

Lemma emitted_line_has_no_break_witness :
  let v := lit "line1" ++ [LF] ++ lit "line2" ++ [CR; LF] in
  let line := lit "CHANGED_B64:bGluZTEKbGluZTINCg==" in
  In LF v /\ printed (_emit_text (lit "CHANGED") v tt) = [line] /\
  ~ In LF line /\ ~ In CR line.
Proof.
  intros v line. split; [apply contains_char_In; reflexivity|].
  split; [reflexivity|].
  apply (emitted_line_has_no_break unit (lit "CHANGED") v tt line).
  - apply contains_char_not_In. reflexivity.
  - apply contains_char_not_In. reflexivity.
  - left. reflexivity.
Defined.

Lemma b64encode_length (bs : bytes) :
  Z.of_nat (List.length (b64encode bs))
  = 4 * ((Z.of_nat (List.length bs) + 2) / 3).
Proof.
  induction bs as [|a|a b|a b c rest IH] using bytes_ind3;
    try reflexivity.
  cbn [b64encode List.length]. rewrite !Nat2Z.inj_succ, IH.
  replace (Z.succ (Z.succ (Z.succ (Z.of_nat (List.length rest)))) + 2)
    with (Z.of_nat (List.length rest) + 2 + 1 * 3) by lia.
  rewrite Z.div_add by lia. lia.
Qed.

Lemma utf8_encode_length (s : pystr) :
  Z.of_nat (List.length (utf8_encode s)) <= 4 * Z.of_nat (List.length s).
Proof.
  unfold utf8_encode. induction s as [|c s IH]; [simpl; lia|].
  simpl flat_map. rewrite length_app. cbn [List.length].
  assert (List.length (utf8_char c) <= 4)%nat.
  { unfold utf8_char.
    destruct (code c <? 0x80); [simpl; lia|].
    destruct (code c <? 0x800); [simpl; lia|].
    destruct (code c <? 0x10000); simpl; lia. }
  lia.
Qed.

Lemma truncate_length_Z (s : pystr) : Z.of_nat (List.length (truncate s)) <= 10240.
Proof. pose proof (truncate_length s). lia. Qed.

(** X13. The length of a printed line is bounded: a plain line has at most
    10241 characters after the tag, and no line has more than 54621 (the
    base64 of at most 4 * 10240 bytes, behind [_B64:]). *)
Theorem emitted_line_length :
  forall (S : Type) (tag value : pystr) (s : S) (line : pystr),
    In line (printed (_emit_text tag value s)) ->
    Z.of_nat (List.length line) <= Z.of_nat (List.length tag) + 54621 /\
    (~ In LF (firstn (Z.to_nat 10240) value) ->
     ~ In CR (firstn (Z.to_nat 10240) value) ->
     Z.of_nat (List.length line) <= Z.of_nat (List.length tag) + 10241).
Proof.
  intros S tag value s line Hin.
  rewrite emit_text_run in Hin. destruct Hin as [<- | []].
  pose proof (truncate_length_Z value) as Ht.
  unfold protocol_line.
  destruct (has_line_break (truncate value)) eqn:E.
  - split.
    + rewrite !length_app. unfold ascii_decode. rewrite length_map.
      rewrite !Nat2Z.inj_add, b64encode_length.
      pose proof (utf8_encode_length (truncate value)) as Hu.
      change (Z.of_nat (List.length (lit "_B64:"))) with 5.
      assert ((Z.of_nat (List.length (utf8_encode (truncate value))) + 2) / 3
              <= 13654).
      { apply Z.div_le_upper_bound; lia. }
      lia.
    + intros Hlf Hcr. exfalso.
      apply has_line_break_true in E. tauto.
  - assert (Z.of_nat (List.length (tag ++ lit ":" ++ truncate value))
            <= Z.of_nat (List.length tag) + 10241) as Hplain.
    { rewrite !length_app, !Nat2Z.inj_add.
      change (Z.of_nat (List.length (lit ":"))) with 1. lia. }
    split; [lia | intros _ _; exact Hplain].
Qed.

Lemma emitted_line_length_witness :
  let line := lit "INITIAL_VALUE:" ++ truncate long_text in
  printed (_emit_text (lit "INITIAL_VALUE") long_text tt) = [line] /\
  Z.of_nat (List.length line) <= 13 + 10241.
Proof.
  intros line. split; [vm_compute; reflexivity|].
  destruct (emitted_line_length unit (lit "INITIAL_VALUE") long_text tt line)
    as [_ H].
  - left. vm_compute. reflexivity.
  - apply H; apply contains_char_not_In; vm_compute; reflexivity.
Defined.
